(** * bursa_tracker: the dashboard's alert logic and the monitoring engine

    The sources at hand are the React dashboard: the stock card, the
    Dashboard page and lib/utils.js.  Their arithmetic and comparisons are
    JavaScript's, on IEEE 754 binary64 numbers; they are embedded over the
    Corelib specification of binary floating point ([spec_float] at
    precision 53, [emax] 1024), so every definition evaluates to the value
    the browser computes.  The monitoring engine behind the dashboard is
    modelled after them, from its specification.  The properties follow the
    definitions. *)

From Stdlib Require Import ZArith NArith Lia List Bool String Ascii Sorted.
From Stdlib Require Import Decimal DecimalString DecimalN DecimalPos.
From Stdlib Require Import Floats.SpecFloat.
From stdpp Require Import gmap strings list.

Local Open Scope Z_scope.

(** ** JavaScript numbers and the operators the sources use *)

Module JS.

Definition prec : Z := 53.
Definition emax : Z := 1024.

(** A Number is a binary64 value; NaN carries no payload in JavaScript. *)
Definition number : Type := spec_float.

Definition sub : number -> number -> number := SFsub prec emax.
Definition mul : number -> number -> number := SFmul prec emax.
Definition div : number -> number -> number := SFdiv prec emax.

(** The Number nearest to an integer literal ([100], [0], ...). *)
Definition lit (z : Z) : number := binary_normalize prec emax z 0 false.

(** The values a price field of the API's JSON can hold: a number, [null],
    or nothing at all ([undefined] after destructuring). *)
Inductive value :=
| VUndefined
| VNull
| VNum (x : number).

Definition ToNumber (v : value) : number :=
  match v with
  | VUndefined => S754_nan
  | VNull => S754_zero false
  | VNum x => x
  end.

Definition ToBoolean (v : value) : bool :=
  match v with
  | VUndefined | VNull => false
  | VNum (S754_zero _) | VNum S754_nan => false
  | VNum _ => true
  end.

(** Number::lessThan: [None] is the specification's [undefined] (a NaN
    operand). *)
Definition lessThan (x y : number) : option bool :=
  match SFcompare x y with
  | None => None
  | Some Lt => Some true
  | Some _ => Some false
  end.

Definition IsLessThan (a b : value) : option bool :=
  lessThan (ToNumber a) (ToNumber b).

(** [a >= b]: false when [a < b] is true or undefined. *)
Definition ge (a b : value) : bool :=
  match IsLessThan a b with
  | Some false => true
  | _ => false
  end.

(** [a <= b]: false when [b < a] is true or undefined. *)
Definition le (a b : value) : bool :=
  match IsLessThan b a with
  | Some false => true
  | _ => false
  end.

(** [a > b] is [b < a], and [a < b], with undefined read as false. *)
Definition gt (a b : value) : bool :=
  match IsLessThan b a with
  | Some true => true
  | _ => false
  end.

Definition lt (a b : value) : bool :=
  match IsLessThan a b with
  | Some true => true
  | _ => false
  end.

(** [a === b] on these values. *)
Definition strict_eq (a b : value) : bool :=
  match a, b with
  | VUndefined, VUndefined => true
  | VNull, VNull => true
  | VNum x, VNum y => SFeqb x y
  | _, _ => false
  end.

(** [a - b], [a / b], [a * b] convert both operands with ToNumber. *)
Definition minus (a b : value) : value := VNum (sub (ToNumber a) (ToNumber b)).
Definition divide (a b : value) : value := VNum (div (ToNumber a) (ToNumber b)).
Definition times (a b : value) : value := VNum (mul (ToNumber a) (ToNumber b)).

(** A decimal literal [n / 10^k] as the parser reads it (correctly
    rounded), for writing prices such as 10.50. *)
Definition dec (n : Z) (k : nat) : number := div (lit n) (lit (10 ^ Z.of_nat k)).

End JS.

Import JS.

(** ** lib/utils.js (src/frontend/src/lib/utils.js) *)

(** The division events of a run: the divisor of every [/] evaluated. *)
Definition traced (A : Type) : Type := (A * list number)%type.

Definition calculatePercentageChange_traced (current previous : value)
  : traced value :=
  if negb (ToBoolean previous) || strict_eq previous (VNum (lit 0))
  then (VNum (lit 0), [])
  else (times (divide (minus current previous) previous) (VNum (lit 100)),
        [ToNumber previous]).

Definition calculatePercentageChange (current previous : value) : value :=
  fst (calculatePercentageChange_traced current previous).

(** ** components/StockCard.jsx (the second document of
       src/frontend/src/components/ui/input.jsx) *)

Record stock := {
  symbol : string;
  current_price : value;
  threshold_up : value;
  threshold_down : value
}.

Inductive icon := TrendingUp | TrendingDown.

(** What the card renders, as far as the alert logic decides it: the ring
    around the card, the icons of the title, the percentage printed under
    each threshold (the number handed to [toFixed(2)]), and the
    alert-zone banner. *)
Record StockCardView := {
  ring : bool;
  titleIcons : list icon;
  upperPercent : option value;
  lowerPercent : option value;
  alertBanner : bool
}.

(** Whether a conditional part of the card is rendered. *)
Definition shown {A : Type} (part : option A) : bool :=
  match part with Some _ => true | None => false end.

Definition isAboveThreshold (s : stock) : bool := ge (current_price s) (threshold_up s).
Definition isBelowThreshold (s : stock) : bool := le (current_price s) (threshold_down s).
Definition isInAlertZone (s : stock) : bool := isAboveThreshold s || isBelowThreshold s.

(** The card computes the same expression for either threshold:
    [((current_price - threshold) / threshold) * 100]. *)
Definition percentOf (price threshold : value) : value :=
  times (divide (minus price threshold) threshold) (VNum (lit 100)).

(** The card, over the computation of the two distances: [StockCard] is
    the card of the source, and the other instances serve to state what on
    the card depends on the distances. *)
Definition StockCard_with (distance : value -> value -> value) (s : stock)
  : StockCardView :=
  let distanceFromUp := distance (current_price s) (threshold_up s) in
  let distanceFromDown := distance (current_price s) (threshold_down s) in
  {| ring := isInAlertZone s;
     titleIcons := (if isAboveThreshold s then [TrendingUp] else [])
                   ++ (if isBelowThreshold s then [TrendingDown] else []);
     upperPercent := if ge (current_price s) (threshold_up s)
                     then Some distanceFromUp else None;
     lowerPercent := if le (current_price s) (threshold_down s)
                     then Some distanceFromDown else None;
     alertBanner := isInAlertZone s |}.

Definition distanceFromUp (s : stock) : value :=
  percentOf (current_price s) (threshold_up s).
Definition distanceFromDown (s : stock) : value :=
  percentOf (current_price s) (threshold_down s).

Definition StockCard (s : stock) : StockCardView := StockCard_with percentOf s.

(** ** pages/Dashboard.jsx (src/unnamed/part_000): the statistics *)

Definition totalStocks (stocks : list stock) : nat := length stocks.

Definition activeAlerts (stocks : list stock) : nat :=
  length (List.filter
            (fun stock => ge (current_price stock) (threshold_up stock)
                          || le (current_price stock) (threshold_down stock))
            stocks).


(** ** pages/Dashboard.jsx (src/unnamed/part_000): the polling effect

    The effect of the page calls [fetchStocks] at once, registers it with
    [setInterval] for every five minutes, and returns a cleanup that calls
    [clearInterval].  The browser's timers are modelled in milliseconds: a
    [tick] moves the clock by one millisecond and runs the callback of every
    interval timer that is due, in the order of registration.  The one
    callback the page registers is [() => fetchStocks()], so a timer holds
    only its period and next due time; [fetchCalls] records the time of
    every call of [fetchStocks], latest first. *)

Module Timers.

Record Timer := { period : Z; due : Z }.

Record Browser := {
  now : Z;
  nextId : nat;
  timers : list (nat * Timer);
  fetchCalls : list Z
}.

Definition fetchStocks (b : Browser) : Browser :=
  {| now := now b; nextId := nextId b; timers := timers b;
     fetchCalls := now b :: fetchCalls b |}.

Definition setInterval (ms : Z) (b : Browser) : nat * Browser :=
  (nextId b,
   {| now := now b; nextId := S (nextId b);
      timers := timers b ++ [(nextId b, {| period := ms; due := now b + ms |})];
      fetchCalls := fetchCalls b |}).

Definition clearInterval (id : nat) (b : Browser) : Browser :=
  {| now := now b; nextId := nextId b;
     timers := List.filter (fun t => negb (Nat.eqb (fst t) id)) (timers b);
     fetchCalls := fetchCalls b |}.

(** Running the timers that are due at the current time. *)
Fixpoint fire (clock : Z) (ts : list (nat * Timer)) (calls : list Z)
  : list (nat * Timer) * list Z :=
  match ts with
  | [] => ([], calls)
  | (id, t) :: rest =>
      if due t =? clock
      then let '(rest', calls') := fire clock rest (clock :: calls) in
           ((id, {| period := period t; due := due t + period t |}) :: rest', calls')
      else let '(rest', calls') := fire clock rest calls in
           ((id, t) :: rest', calls')
  end.

Definition tick (b : Browser) : Browser :=
  let clock := now b + 1 in
  let '(ts, calls) := fire clock (timers b) (fetchCalls b) in
  {| now := clock; nextId := nextId b; timers := ts; fetchCalls := calls |}.

Fixpoint elapse (ms : nat) (b : Browser) : Browser :=
  match ms with
  | O => b
  | S ms' => tick (elapse ms' b)
  end.

(** The page as the browser loads it at time [t0]. *)
Definition loaded (t0 : Z) : Browser :=
  {| now := t0; nextId := 0; timers := []; fetchCalls := [] |}.

(** The body of the effect for a refresh period, and the effect of the
    Dashboard, whose period is the constant [5 * 60 * 1000]. *)
Definition pollEvery (ms : Z) (b : Browser) : nat * Browser :=
  setInterval ms (fetchStocks b).

Definition Dashboard_useEffect (b : Browser) : nat * Browser :=
  pollEvery (5 * 60 * 1000) b.

Definition Dashboard_cleanup (interval : nat) (b : Browser) : Browser :=
  clearInterval interval b.

(** The times of the calls made up to the [count]-th period, latest
    first: [t0 + count * ms], ..., [t0 + ms], [t0]. *)
Definition cycle_times (t0 ms : Z) (count : nat) : list Z :=
  rev (map (fun j => t0 + Z.of_nat j * ms) (seq 0 (S count))).

(** The page [n] milliseconds after the effect ran at [t0] with period
    [ms]: one timer, due at the end of the running period, and one call per
    period begun. *)
Definition polling (t0 ms : Z) (n : nat) : Browser :=
  {| now := t0 + Z.of_nat n;
     nextId := 1;
     timers := [(0%nat, {| period := ms;
                            due := t0 + (Z.of_nat n / ms + 1) * ms |})];
     fetchCalls := cycle_times t0 ms (Z.to_nat (Z.of_nat n / ms)) |}.

End Timers.

(** ** pages/Dashboard.jsx (src/unnamed/part_000): state, fetchStocks and
       what the page renders

    The page holds four pieces of state; [fetchStocks] awaits the two
    requests one after the other and sets state only after both; the JSX
    picks the body of the page from [loading] and [stocks]. *)

Module Page.

(** How a request of the API service ends. *)
Inductive settled (A : Type) : Type :=
| fulfilled (data : A)
| rejected.

Arguments fulfilled {A} data.
Arguments rejected {A}.

Inductive toastKind := toast_loading | toast_success | toast_error.

(** A call of react-hot-toast: its kind, message and the [id] option. *)
Record toastCall := {
  kind : toastKind;
  message : string;
  toast_id : option string
}.

Section Alerts.

(** The object of alerts is opaque to the page, which stores it and never
    reads it; [no_alerts] is the literal [{}]. *)
Variable Alerts : Type.
Variable no_alerts : Alerts.

(** What [api.getAlerts()] resolves to: [null] or [undefined], on which
    reading [.alerts] throws, or any other value, whose [alerts] property is
    [None] when it is missing or falsy. *)
Inductive alertsData :=
| nullish
| having (alerts : option Alerts).

Record State := {
  stocks : list stock;
  alerts : Alerts;
  loading : bool;
  refreshing : bool
}.

(** The state with what the page has done to the outside: the toasts it
    asked for, the paths it requested and its calls of [console.error]. *)
Record World := {
  state : State;
  toasts : list toastCall;
  requests : list string;
  consoleErrors : nat
}.

(** [useState([])], [useState({})], [useState(true)], [useState(false)]. *)
Definition initial : State :=
  {| stocks := []; alerts := no_alerts; loading := true; refreshing := false |}.

Definition opened : World :=
  {| state := initial; toasts := []; requests := []; consoleErrors := 0 |}.

Definition setStocks (v : list stock) (w : World) : World :=
  {| state := {| stocks := v; alerts := alerts (state w);
                 loading := loading (state w);
                 refreshing := refreshing (state w) |};
     toasts := toasts w; requests := requests w;
     consoleErrors := consoleErrors w |}.

Definition setAlerts (v : Alerts) (w : World) : World :=
  {| state := {| stocks := stocks (state w); alerts := v;
                 loading := loading (state w);
                 refreshing := refreshing (state w) |};
     toasts := toasts w; requests := requests w;
     consoleErrors := consoleErrors w |}.

Definition setLoading (v : bool) (w : World) : World :=
  {| state := {| stocks := stocks (state w); alerts := alerts (state w);
                 loading := v; refreshing := refreshing (state w) |};
     toasts := toasts w; requests := requests w;
     consoleErrors := consoleErrors w |}.

Definition setRefreshing (v : bool) (w : World) : World :=
  {| state := {| stocks := stocks (state w); alerts := alerts (state w);
                 loading := loading (state w); refreshing := v |};
     toasts := toasts w; requests := requests w;
     consoleErrors := consoleErrors w |}.

Definition toast (k : toastKind) (msg : string) (w : World) : World :=
  {| state := state w;
     toasts := toasts w ++ [{| kind := k; message := msg;
                               toast_id := Some "fetch-stocks" |}];
     requests := requests w; consoleErrors := consoleErrors w |}.

Definition request (path : string) (w : World) : World :=
  {| state := state w; toasts := toasts w;
     requests := requests w ++ [path]; consoleErrors := consoleErrors w |}.

Definition console_error (w : World) : World :=
  {| state := state w; toasts := toasts w; requests := requests w;
     consoleErrors := S (consoleErrors w) |}.

(** [fetchStocks] up to its first [await]. *)
Definition fetchStocks_start (showToast : bool) (w : World) : World :=
  let w := if showToast
           then toast toast_loading "Fetching latest stock prices..."
                      (setRefreshing true w)
           else w in
  request "/stocks" w.

(** The [catch] block and the [finally] block. *)
Definition catch (showToast : bool) (w : World) : World :=
  let w := console_error w in
  if showToast
  then toast toast_error "Failed to fetch stock data. Please try again." w
  else w.

Definition finally (w : World) : World :=
  setRefreshing false (setLoading false w).

(** [fetchStocks] from the settling of [api.getStocks()] on:
    [api.getAlerts()] is called only once the stocks have arrived, and the
    state is set only once both have. *)
Definition fetchStocks_settle (showToast : bool)
    (stocksResponse : settled (list stock))
    (alertsResponse : settled alertsData) (w : World) : World :=
  finally
    match stocksResponse with
    | rejected => catch showToast w
    | fulfilled stocksData =>
        let w := request "/alerts" w in
        match alertsResponse with
        | rejected => catch showToast w
        | fulfilled alertsData =>
            let w := setStocks stocksData w in
            match alertsData with
            | nullish => catch showToast w
            | having found =>
                let w := setAlerts (match found with
                                    | Some a => a
                                    | None => no_alerts
                                    end) w in
                if showToast
                then toast toast_success "Stock prices updated!" w
                else w
            end
        end
    end.

Definition fetchStocks (showToast : bool)
    (stocksResponse : settled (list stock))
    (alertsResponse : settled alertsData) (w : World) : World :=
  fetchStocks_settle showToast stocksResponse alertsResponse
    (fetchStocks_start showToast w).

Definition handleRefresh := fetchStocks true.

(** *** Rendering *)

Record Trend := {
  text : string;
  isPositive : bool
}.

(** The first two stats cards: Total Stocks, and Active Alerts with its
    trend line. *)
Record Stats := {
  totalCard : nat;
  activeCard : nat;
  activeTrend : Trend
}.

Inductive Body :=
| Skeletons (keys : list nat)
| Grid (cards : list (string * StockCardView))
| NoStocksFound.

Record View := {
  stats : option Stats;
  buttonDisabled : bool;
  buttonLabel : string;
  iconSpins : bool;
  body : Body
}.

Definition render (st : State) : View :=
  {| stats :=
       if negb (loading st)
       then Some {| totalCard := totalStocks (stocks st);
                    activeCard := activeAlerts (stocks st);
                    activeTrend :=
                      if (0 <? activeAlerts (stocks st))%nat
                      then {| text := "Attention needed"; isPositive := false |}
                      else {| text := "All clear"; isPositive := true |} |}
       else None;
     buttonDisabled := refreshing st;
     buttonLabel := if refreshing st then "Refreshing..." else "Refresh Prices";
     iconSpins := refreshing st;
     body :=
       if loading st then Skeletons [1; 2; 3]%nat
       else if (0 <? length (stocks st))%nat
            then Grid (map (fun stock => (symbol stock, StockCard stock))
                           (stocks st))
            else NoStocksFound |}.

End Alerts.

Arguments nullish {Alerts}.
Arguments having {Alerts} alerts.
Arguments stocks {Alerts} s.
Arguments alerts {Alerts} s.
Arguments loading {Alerts} s.
Arguments refreshing {Alerts} s.
Arguments state {Alerts} w.
Arguments toasts {Alerts} w.
Arguments requests {Alerts} w.
Arguments consoleErrors {Alerts} w.
Arguments initial {Alerts} no_alerts.
Arguments opened {Alerts} no_alerts.
Arguments fetchStocks_start {Alerts} showToast w.
Arguments catch {Alerts} showToast w.
Arguments finally {Alerts} w.
Arguments fetchStocks_settle {Alerts} no_alerts showToast stocksResponse alertsResponse w.
Arguments fetchStocks {Alerts} no_alerts showToast stocksResponse alertsResponse w.
Arguments handleRefresh {Alerts} no_alerts stocksResponse alertsResponse w.
Arguments render {Alerts} st.

End Page.

(** ** lib/utils.js: formatCurrency and formatPercentage, and the texts of
       the stock card

    [Number.prototype.toFixed] is the language's: its steps are those of
    ECMA-262, over the exact value [m * 2^e] of a finite number.  Two
    renderings are the platform's and stay abstract: the currency format of
    [Intl.NumberFormat], and [Number::toString], which [toFixed] uses for a
    magnitude of at least 10^21. *)

Module Format.

(** The global [isNaN]: whether ToNumber of the argument is NaN. *)
Definition isNaN (v : value) : bool :=
  match ToNumber v with
  | S754_nan => true
  | _ => false
  end.

(** The decimal representation of [n], without leading zeroes; ["0"] for
    zero. *)
Definition digits (n : N) : string := NilEmpty.string_of_uint (N.to_uint n).

Fixpoint zeros (k : nat) : string :=
  match k with
  | O => EmptyString
  | S k' => String "0" (zeros k')
  end.

(** The integer [n] for which [n / 10^f - x] is closest to zero, the larger
    one if there are two, for [x = m * 2^e]: the floor of
    [x * 10^f + 1/2]. *)
Definition nearest (f : nat) (m : positive) (e : Z) : N :=
  Z.to_N (if 0 <=? e
          then Z.pos m * 2 ^ e * 10 ^ Z.of_nat f
          else (2 * Z.pos m * 10 ^ Z.of_nat f + 2 ^ (- e)) / 2 ^ (1 - e)).

(** [m * 2^e >= 10^21]. *)
Definition atLeast1e21 (m : positive) (e : Z) : bool :=
  if 0 <=? e
  then 10 ^ 21 <=? Z.pos m * 2 ^ e
  else 10 ^ 21 * 2 ^ (- e) <=? Z.pos m.

(** Steps 11.b and 11.c of toFixed: the digits of [n], padded with zeroes
    to [f + 1] digits, with a point before the last [f]. *)
Definition fixedDigits (f : nat) (n : N) : string :=
  let m := digits n in
  match f with
  | O => m
  | S _ =>
      let k := String.length m in
      let m := if (k <=? f)%nat then zeros (f + 1 - k) +:+ m else m in
      let k := if (k <=? f)%nat then (f + 1)%nat else k in
      substring 0 (k - f) m +:+ "." +:+ substring (k - f) f m
  end.

Section Platform.

(** [Number::toString] in radix 10 of a finite number of at least 10^21. *)
Variable NumberToString : number -> string.

(** [new Intl.NumberFormat("en-MY", {style: "currency", currency: "MYR",
    minimumFractionDigits: 2, maximumFractionDigits: 2}).format]. *)
Variable format_MYR : number -> string.

(** [x.toFixed(fractionDigits)] for [fractionDigits] from 0 to 100; the
    sources pass 2. *)
Definition toFixed (fractionDigits : nat) (x : number) : string :=
  match x with
  | S754_nan => "NaN"
  | S754_infinity false => "Infinity"
  | S754_infinity true => "-Infinity"
  | S754_zero _ => fixedDigits fractionDigits 0
  | S754_finite s m e =>
      (if s then "-" else "")
      +:+ (if atLeast1e21 m e
           then NumberToString (S754_finite false m e)
           else fixedDigits fractionDigits (nearest fractionDigits m e))
  end.

Definition formatCurrency (v : value) : string :=
  if strict_eq v VNull || strict_eq v VUndefined || isNaN v
  then "RM 0.00"
  else format_MYR (ToNumber v).

(** Past the guard [v] is a number, and [ToNumber] is the identity on it. *)
Definition formatPercentage (v : value) : string :=
  if strict_eq v VNull || strict_eq v VUndefined || isNaN v
  then "0.00%"
  else
    let sign := if ge v (VNum (lit 0)) then "+" else "" in
    sign +:+ toFixed 2 (ToNumber v) +:+ "%".

(** The texts of the stock card: the price and the two thresholds through
    [formatCurrency], and under each threshold the distance with two
    decimals, the upper one behind a literal plus sign. *)
Record StockCardText := {
  currentPrice : string;
  upperThreshold : string;
  upperDistance : option string;
  lowerThreshold : string;
  lowerDistance : option string
}.

Definition StockCard_text (s : stock) : StockCardText :=
  {| currentPrice := formatCurrency (current_price s);
     upperThreshold := formatCurrency (threshold_up s);
     upperDistance :=
       if ge (current_price s) (threshold_up s)
       then Some ("+" +:+ toFixed 2 (ToNumber (distanceFromUp s)) +:+ "%")
       else None;
     lowerThreshold := formatCurrency (threshold_down s);
     lowerDistance :=
       if le (current_price s) (threshold_down s)
       then Some (toFixed 2 (ToNumber (distanceFromDown s)) +:+ "%")
       else None |}.

End Platform.

(** A text of decimal digits only. *)
Definition isDigit (c : ascii) : bool :=
  (48 <=? nat_of_ascii c)%nat && (nat_of_ascii c <=? 57)%nat.

Fixpoint allDigits (s : string) : bool :=
  match s with
  | EmptyString => true
  | String c rest => isDigit c && allDigits rest
  end.

(** The integer a text of digits denotes. *)
Definition readDigits (s : string) : option N :=
  option_map N.of_uint (NilEmpty.uint_of_string s).

End Format.

(** * The monitoring engine

    The backend that samples prices, gates alerts by cooldown, dispatches
    notifications and keeps the history log is a Python service; none of
    its files is among the sources above.  Its components are therefore
    modelled from the specification, each definition saying what it
    stands for.  Prices are binary64 numbers there as well. *)

Module Engine.

(** Modelled from the spec: the direction of an Alert Record and of a
    Notification Event (data model; the backend's declarations are
    missing). *)
Inductive direction := above | below.

#[global] Instance direction_eq_dec : EqDecision direction.
Proof. solve_decision. Defined.

#[global] Instance direction_countable : Countable direction :=
  inj_countable'
    (fun d => match d with above => true | below => false end)
    (fun b : bool => if b then above else below)
    (fun d => match d with above => eq_refl | below => eq_refl end).

(** Modelled from the spec: the Symbol Configuration and the Price
    Observation of the data model (the backend's declarations are
    missing).  A timestamp is an integer instant. *)
Record SymbolConfiguration := {
  identifier : string;
  upper : number;
  lower : number
}.

Record PriceObservation := {
  obs_symbol : string;
  price : number;
  timestamp : Z
}.

(** *** Alert State Tracker *)

(** Modelled from the spec: the cooldown gate of the Threshold Evaluator
    and [isEligible] of the Alert State Tracker (the backend's tracker is
    missing); the Alert Records are a map from (symbol, direction) to the
    last-fired instant.
    A direction is eligible if no Alert Record exists for (symbol,
    direction) or [now - lastFired >= cooldownDuration].  Instants and
    durations are integers in one unit of time. *)
Definition isEligible (cooldownDuration : Z)
    (records : gmap (string * direction) Z)
    (symbol : string) (dir : direction) (now : Z) : bool :=
  match records !! (symbol, dir) with
  | None => true
  | Some lastFired => cooldownDuration <=? now - lastFired
  end.

(** Modelled from the spec: [recordFired] of the Alert State Tracker
    (missing with the backend), which sets the last-fired instant of
    (symbol, direction). *)
Definition recordFired (records : gmap (string * direction) Z)
    (symbol : string) (dir : direction) (now : Z)
  : gmap (string * direction) Z :=
  <[(symbol, dir) := now]> records.

(** *** Threshold Evaluator *)

(** Modelled from the spec: what [evaluate] returns for one direction (the
    backend's evaluator is missing). *)
Record BreachReport := {
  breached : direction;
  threshold : number;
  percentDistance : number;
  eligible : bool
}.

(** Modelled from the spec: the percent distance from a threshold of the
    missing evaluator, [(price - threshold) / threshold * 100]. *)
Definition percent_distance (price threshold : number) : number :=
  mul (div (sub price threshold) threshold) (lit 100).

Definition report (cooldownDuration : Z) (records : gmap (string * direction) Z)
    (obs : PriceObservation) (dir : direction) (thr : number) (now : Z)
  : BreachReport :=
  {| breached := dir; threshold := thr;
     percentDistance := percent_distance (price obs) thr;
     eligible := isEligible cooldownDuration records (obs_symbol obs) dir now |}.

(** Modelled from the spec: [evaluate] of the Threshold Evaluator (missing
    with the backend).
    [price >= upper] reports [above], [price <= lower] reports [below],
    each on its own and each with the cooldown gate of its own
    (symbol, direction); no report is the spec's [none]. *)
Definition evaluate (cooldownDuration : Z) (records : gmap (string * direction) Z)
    (obs : PriceObservation) (config : SymbolConfiguration) (now : Z)
  : list BreachReport :=
  (if SFleb (upper config) (price obs)
   then [report cooldownDuration records obs above (upper config) now] else [])
  ++ (if SFleb (price obs) (lower config)
      then [report cooldownDuration records obs below (lower config) now] else []).

(** *** Notification Dispatcher *)

(** Modelled from the spec: the result of one call of a Channel Sender,
    with the error taxonomy of the spec, and the tunables of the retry
    policy (the backend's notification service is missing). *)
Inductive SendResult := delivered | transient_error | permanent_error.

Record RetryPolicy := {
  maxAttempts : nat;
  baseDelay : N;
  maxDelay : N
}.

(** Modelled from the spec: the exponential backoff of the missing retry
    policy, the base delay doubling with each retry, capped. *)
Definition backoff (policy : RetryPolicy) (retry : nat) : N :=
  N.min (baseDelay policy * 2 ^ N.of_nat retry) (maxDelay policy).

(** What a run of the retry policy does, in order: attempts and the waits
    between them. *)
Inductive Step :=
| Attempt (result : SendResult)
| Wait (delay : N).

(** Modelled from the spec: the retry policy around one channel's send
    (missing with the backend's notification service).
    [send k] is what the channel answers to its [k]-th call for the event.
    At most [remaining] attempts are made; only a transient error is
    retried, after the backoff delay; a permanent error ends the run. *)
Fixpoint sendWithRetry (policy : RetryPolicy) (send : nat -> SendResult)
    (attempt remaining : nat) : list Step :=
  match remaining with
  | O => []
  | S remaining' =>
      match send attempt with
      | delivered => [Attempt delivered]
      | permanent_error => [Attempt permanent_error]
      | transient_error =>
          match remaining' with
          | O => [Attempt transient_error]
          | S _ =>
              Attempt transient_error :: Wait (backoff policy attempt)
              :: sendWithRetry policy send (S attempt) remaining'
          end
      end
  end.

Definition sendChannel (policy : RetryPolicy) (send : nat -> SendResult)
  : list Step :=
  sendWithRetry policy send 0 (maxAttempts policy).

Definition attempts (run : list Step) : list SendResult :=
  flat_map (fun s => match s with Attempt r => [r] | Wait _ => [] end) run.

Definition delays (run : list Step) : list N :=
  flat_map (fun s => match s with Attempt _ => [] | Wait d => [d] end) run.

Definition isDelivered (r : SendResult) : bool :=
  match r with delivered => true | _ => false end.

Definition isTransient (r : SendResult) : bool :=
  match r with transient_error => true | _ => false end.

Definition deliveries (run : list Step) : nat :=
  length (List.filter isDelivered (attempts run)).

Definition transientFailures (run : list Step) : nat :=
  length (List.filter isTransient (attempts run)).

(** Modelled from the spec: a configured channel with its sender, and the
    Notification Event of the data model (the backend's declarations are
    missing). *)
Record Channel := {
  channel : string;
  send : nat -> SendResult
}.

Record NotificationEvent := {
  ev_symbol : string;
  ev_direction : direction;
  ev_price : number;
  ev_threshold : number;
  ev_timestamp : Z
}.

(** Modelled from the spec: [dispatch] of the missing Notification
    Dispatcher fans out to every enabled channel, each with its own
    retries, whatever the other channels did. *)
Definition dispatch (policy : RetryPolicy) (channels : list Channel)
  : list (string * list Step) :=
  map (fun c => (channel c, sendChannel policy (send c))) channels.

(** What a dispatch reports overall. *)
Inductive DispatchOutcome := all_delivered | partial_success | none_delivered.

Definition channelDelivered (r : string * list Step) : bool :=
  existsb isDelivered (attempts (snd r)).

Definition outcome (results : list (string * list Step)) : DispatchOutcome :=
  if forallb channelDelivered results then all_delivered
  else if existsb channelDelivered results then partial_success
  else none_delivered.

(** Modelled from the spec: firing an alert, in the missing monitoring
    service.  The event is dispatched and
    the Alert State Tracker records the fire, keyed to the attempt and not to
    the deliveries. *)
Definition fire (policy : RetryPolicy) (channels : list Channel)
    (records : gmap (string * direction) Z) (event : NotificationEvent) (now : Z)
  : list (string * list Step) * gmap (string * direction) Z :=
  (dispatch policy channels,
   recordFired records (ev_symbol event) (ev_direction event) now).

(** *** History Store *)

(** Modelled from the spec: the History Store's persisted layout (the
    backend's store is missing): the current log, with or without its
    header line, and the backups named by the time of their rotation. *)
Record LogFile := {
  header : bool;
  rows : list PriceObservation
}.

Record HistoryStore := {
  current : LogFile;
  backups : list (Z * LogFile)
}.

(** Where [append] places the rotation check. *)
Inductive RotationCheck := before_append | after_append.

(** A log file with its header and the given observations. *)
Definition log_of (observations : list PriceObservation) : LogFile :=
  {| header := true; rows := observations |}.

Definition fresh_log : LogFile := log_of [].

Section HistoryStore.

(** The byte sizes of the header line and of an observation's line, and the
    configured maximum: the spec fixes no file format. *)
Variable header_size : N.
Variable row_size : PriceObservation -> N.
Variable max_size : N.

Definition file_size (f : LogFile) : N :=
  ((if header f then header_size else 0)
   + fold_right (fun o acc => row_size o + acc) 0 (rows f))%N.

Definition empty_store : HistoryStore := {| current := fresh_log; backups := [] |}.

Definition write (obs : PriceObservation) (st : HistoryStore) : HistoryStore :=
  {| current := {| header := header (current st);
                   rows := rows (current st) ++ [obs] |};
     backups := backups st |}.

(** Modelled from the spec: the rotation policy of the missing History
    Store.  If the current log's size
    exceeds the maximum, the file becomes a backup named by the time of the
    rotation and a fresh log with a header is started. *)
Definition rotateIfNeeded (now : Z) (st : HistoryStore) : HistoryStore :=
  if (max_size <? file_size (current st))%N
  then {| current := fresh_log; backups := (now, current st) :: backups st |}
  else st.

(** Modelled from the spec: [append] of the missing History Store, with
    the rotation check before or after the write (the spec allows
    either). *)
Definition append (check : RotationCheck) (now : Z) (obs : PriceObservation)
    (st : HistoryStore) : HistoryStore :=
  match check with
  | before_append => write obs (rotateIfNeeded now st)
  | after_append => rotateIfNeeded now (write obs st)
  end.

Fixpoint appendAll (check : RotationCheck) (writes : list (Z * PriceObservation))
    (st : HistoryStore) : HistoryStore :=
  match writes with
  | [] => st
  | (now, obs) :: rest => appendAll check rest (append check now obs st)
  end.

(** Every observation the store holds, oldest first: the backups from the
    oldest to the newest, then the current log. *)
Definition recorded (st : HistoryStore) : list PriceObservation :=
  flat_map (fun b => rows (snd b)) (rev (backups st)) ++ rows (current st).

(** *** One symbol's step of a cycle *)

(** The engine's state between quotes: the Alert Records, the history and
    the events dispatched so far with their results. *)
Record EngineState := {
  alertRecords : gmap (string * direction) Z;
  history : HistoryStore;
  dispatched : list (NotificationEvent * list (string * list Step))
}.

(** Modelled from the spec: in the missing Monitor Scheduler's cycle, an
    eligible breach becomes a Notification Event that is fired; a breach in
    cooldown changes nothing. *)
Definition notify (policy : RetryPolicy) (channels : list Channel) (now : Z)
    (obs : PriceObservation) (st : EngineState) (r : BreachReport)
  : EngineState :=
  if eligible r
  then
    let event := {| ev_symbol := obs_symbol obs; ev_direction := breached r;
                    ev_price := price obs; ev_threshold := threshold r;
                    ev_timestamp := timestamp obs |} in
    let fired := fire policy channels (alertRecords st) event now in
    {| alertRecords := snd fired; history := history st;
       dispatched := dispatched st ++ [(event, fst fired)] |}
  else st.

(** Modelled from the spec: the data flow of the missing Monitor
    Scheduler for one quote, record then evaluate then notify. *)
Definition processObservation (check : RotationCheck) (cooldownDuration : Z)
    (policy : RetryPolicy) (channels : list Channel)
    (config : SymbolConfiguration) (now : Z) (obs : PriceObservation)
    (st : EngineState) : EngineState :=
  let recorded_first :=
    {| alertRecords := alertRecords st;
       history := append check now obs (history st);
       dispatched := dispatched st |} in
  fold_left (notify policy channels now obs)
            (evaluate cooldownDuration (alertRecords st) obs config now)
            recorded_first.

End HistoryStore.

End Engine.

(** * Sample data *)

(** The thresholds of the end-to-end scenario of the specification, 10.50
    and 9.80, and prices around them, as binary64 numbers. *)
Definition rm_10_50 : number := Eval vm_compute in dec 1050 2.
Definition rm_9_80 : number := Eval vm_compute in dec 980 2.
Definition rm_9_75 : number := Eval vm_compute in dec 975 2.
Definition rm_10_00 : number := Eval vm_compute in dec 1000 2.
Definition rm_10_20 : number := Eval vm_compute in dec 1020 2.
Definition rm_10_55 : number := Eval vm_compute in dec 1055 2.
Definition rm_10_60 : number := Eval vm_compute in dec 1060 2.

(** The scenario of the specification: email fails for good (bad
    credentials), chat delivers. *)
Definition email_down : Engine.Channel :=
  {| Engine.channel := "email"; Engine.send := fun _ => Engine.permanent_error |}.

Definition chat_up : Engine.Channel :=
  {| Engine.channel := "chat"; Engine.send := fun _ => Engine.delivered |}.

Definition three_attempts : Engine.RetryPolicy :=
  {| Engine.maxAttempts := 3; Engine.baseDelay := 1000; Engine.maxDelay := 30000 |}.

Definition above_5285 : Engine.NotificationEvent :=
  {| Engine.ev_symbol := "5285.KL"; Engine.ev_direction := Engine.above;
     Engine.ev_price := rm_10_55; Engine.ev_threshold := rm_10_50;
     Engine.ev_timestamp := 300 |}.

Definition quote_at (ts : Z) (p : number) : Engine.PriceObservation :=
  {| Engine.obs_symbol := "5285.KL"; Engine.price := p; Engine.timestamp := ts |}.

(** The end-to-end scenario of the specification: symbol 5285.KL with
    thresholds 10.50 and 9.80, a cooldown of one hour, and the quotes 10.20,
    10.55 and 10.60 at [t0], [t0 + 5 min] and [t0 + 8 min] (in seconds, from
    [t0 = 0]). *)
Definition config_5285 : Engine.SymbolConfiguration :=
  {| Engine.identifier := "5285.KL"; Engine.upper := rm_10_50;
     Engine.lower := rm_9_80 |}.

Definition idle : Engine.EngineState :=
  {| Engine.alertRecords := ∅; Engine.history := Engine.empty_store;
     Engine.dispatched := [] |}.

Definition step_5285 (now : Z) (p : number) (st : Engine.EngineState)
  : Engine.EngineState :=
  Engine.processObservation 23 (fun _ => 40%N) 10485760 Engine.after_append
    3600 three_attempts [email_down; chat_up] config_5285 now (quote_at now p) st.

Definition after_three_quotes : Engine.EngineState :=
  step_5285 480 rm_10_60 (step_5285 300 rm_10_55 (step_5285 0 rm_10_20 idle)).
(** The stock 5285.KL of the scenario as the dashboard receives it, at a
    given price field. *)
Definition stock_5285 (price : value) : stock :=
  {| symbol := "5285.KL"; current_price := price;
     threshold_up := VNum rm_10_50; threshold_down := VNum rm_9_80 |}.

(** A page on which another script already runs a one-second interval
    timer. *)
Definition busy_page : Timers.Browser :=
  {| Timers.now := 0; Timers.nextId := 1;
     Timers.timers := [(0%nat, {| Timers.period := 1000; Timers.due := 1000 |})];
     Timers.fetchCalls := [] |}.


(** * Notions used to state and prove the properties *)

(** ** The order of JavaScript numbers

    [SFcompare] orders the numbers other than NaN lexicographically: by
    class and sign, then by exponent, then by mantissa.  [key] names that
    position, and the comparison of two numbers is the comparison of their
    keys, which makes the order laws arithmetic. *)

Module Keys.

Definition key (x : number) : option (Z * Z * Z) :=
  match x with
  | S754_nan => None
  | S754_infinity true => Some (-2, 0, 0)
  | S754_finite true m e => Some (-1, - e, Z.neg m)
  | S754_zero _ => Some (0, 0, 0)
  | S754_finite false m e => Some (1, e, Z.pos m)
  | S754_infinity false => Some (2, 0, 0)
  end.

Definition lex3 (a b : Z * Z * Z) : comparison :=
  let '(a1, a2, a3) := a in
  let '(b1, b2, b3) := b in
  match a1 ?= b1 with
  | Eq => match a2 ?= b2 with
          | Eq => a3 ?= b3
          | r => r
          end
  | r => r
  end.

Definition klt (a b : Z * Z * Z) : Prop :=
  let '(a1, a2, a3) := a in
  let '(b1, b2, b3) := b in
  a1 < b1 \/ (a1 = b1 /\ (a2 < b2 \/ (a2 = b2 /\ a3 < b3))).

(** [x <= y] and [x < y] on numbers, through keys. *)
Definition num_le (x y : number) : Prop :=
  match key x, key y with
  | Some a, Some b => klt a b \/ a = b
  | _, _ => False
  end.

Definition num_lt (x y : number) : Prop :=
  match key x, key y with
  | Some a, Some b => klt a b
  | _, _ => False
  end.

End Keys.

(** ** Magnitudes in binary64 *)

Module Rounding.

(** The least exponent of a binary64 number, -1074. *)
Definition emin : Z := SpecFloat.emin prec emax.

(** [x] is the infinity of sign [s], or finite of sign [s] with a valid
    exponent and a magnitude [log2 m + 1 + e] of at least [floor]. *)
Definition signed_above (s : bool) (floor : Z) (x : number) : Prop :=
  x = S754_infinity s \/
  exists m e, x = S754_finite s m e /\ emin <= e /\
              floor <= Z.log2 (Z.pos m) + 1 + e.

(** A valid finite number is a whole multiple of [2 ^ emin]: [scaled x] is
    that multiple, so the number [x] denotes is [scaled x * 2 ^ emin]. *)
Definition scaled (x : number) : option Z :=
  match x with
  | S754_zero _ => Some 0
  | S754_finite s m e => Some (cond_Zopp s (Z.pos m * 2 ^ (e - emin)))
  | _ => None
  end.

End Rounding.

(** ** The page: what a render shows and how a fetch ends *)

Module Shown.

(** The stock cards of a rendered body: those of the grid, none
    otherwise. *)
Definition cards (b : Page.Body) : list (string * StockCardView) :=
  match b with
  | Page.Grid cs => cs
  | _ => []
  end.

(** A fetch succeeds when both requests are fulfilled and the alerts
    response is an object. *)
Definition succeeded {Alerts : Type} (stocksResponse : Page.settled (list stock))
    (alertsResponse : Page.settled (Page.alertsData Alerts)) : bool :=
  match stocksResponse, alertsResponse with
  | Page.fulfilled _, Page.fulfilled (Page.having _) => true
  | _, _ => false
  end.

End Shown.


(** * Properties *)

(** ** The order of JavaScript numbers *)

Module Order.

Import Keys.

Lemma lex3_spec a b :
  match lex3 a b with
  | Lt => klt a b
  | Eq => a = b
  | Gt => klt b a
  end.
Proof.
  destruct a as [[a1 a2] a3], b as [[b1 b2] b3]; unfold lex3, klt.
  destruct (Z.compare_spec a1 b1); [ | lia | lia ].
  destruct (Z.compare_spec a2 b2); [ | lia | lia ].
  destruct (Z.compare_spec a3 b3); [ congruence | lia | lia ].
Qed.

Lemma klt_irrefl a : ~ klt a a.
Proof. destruct a as [[a1 a2] a3]; unfold klt; lia. Qed.

Lemma klt_trans a b c : klt a b -> klt b c -> klt a c.
Proof.
  destruct a as [[a1 a2] a3], b as [[b1 b2] b3], c as [[c1 c2] c3].
  unfold klt; lia.
Qed.

Lemma SFcompare_key (x y : number) :
  SFcompare x y =
  match key x, key y with
  | Some a, Some b => Some (lex3 a b)
  | _, _ => None
  end.
Proof.
  destruct x as [sx | sx | | sx mx ex], y as [sy | sy | | sy my ey];
    try destruct sx; try destruct sy; try reflexivity.
  cbn [SFcompare key lex3]. rewrite Z.compare_refl, Z.compare_opp.
  rewrite (Z.compare_antisym ey ex).
  destruct (ey ?= ex); reflexivity.
Qed.

Lemma SFleb_le x y : SFleb x y = true <-> num_le x y.
Proof.
  unfold SFleb, num_le. rewrite SFcompare_key.
  destruct (key x) as [a|], (key y) as [b|]; try (split; [discriminate | tauto]).
  pose proof (lex3_spec a b) as H. destruct (lex3 a b); split; intros H';
    try discriminate; try tauto; exfalso.
  - destruct H' as [H' | ->]; [ exact (klt_irrefl _ (klt_trans _ _ _ H H')) | exact (klt_irrefl _ H) ].
Qed.

Lemma SFltb_lt x y : SFltb x y = true <-> num_lt x y.
Proof.
  unfold SFltb, num_lt. rewrite SFcompare_key.
  destruct (key x) as [a|], (key y) as [b|]; try (split; [discriminate | tauto]).
  pose proof (lex3_spec a b) as H. destruct (lex3 a b); split; intros H';
    try discriminate; try tauto; exfalso.
  - subst. exact (klt_irrefl _ H').
  - exact (klt_irrefl _ (klt_trans _ _ _ H H')).
Qed.

Lemma SFeqb_eq x y :
  SFeqb x y = true <-> exists a, key x = Some a /\ key y = Some a.
Proof.
  unfold SFeqb. rewrite SFcompare_key.
  destruct (key x) as [a|], (key y) as [b|];
    try (split; [discriminate | intros (c & ? & ?); discriminate]).
  pose proof (lex3_spec a b) as H. destruct (lex3 a b); split; intros H';
    try discriminate.
  - subst. eauto.
  - reflexivity.
  - destruct H' as (c & [= ->] & [= ->]). destruct (klt_irrefl _ H).
  - destruct H' as (c & [= ->] & [= ->]). destruct (klt_irrefl _ H).
Qed.

Lemma SFleb_lt_or_eq x y :
  SFleb x y = true <-> SFltb x y = true \/ SFeqb x y = true.
Proof.
  rewrite SFleb_le, SFltb_lt, SFeqb_eq. unfold num_le, num_lt.
  destruct (key x) as [a|], (key y) as [b|].
  - split.
    + intros [H | ->]; [ left; exact H | right; eauto ].
    + intros [H | (c & [= ->] & [= ->])]; [ left; exact H | right; reflexivity ].
  - split; [ tauto | intros [[] | (c & _ & [=])] ].
  - split; [ tauto | intros [[] | (c & [=] & _)] ].
  - split; [ tauto | intros [[] | (c & [=] & _)] ].
Qed.

(** [p >= u] in the source is [u <= p] of IEEE 754, and so on. *)
Lemma ge_num x y : ge (VNum x) (VNum y) = true <-> num_le y x.
Proof.
  unfold ge, IsLessThan, lessThan, num_le; cbn [ToNumber].
  rewrite SFcompare_key.
  destruct (key x) as [a|], (key y) as [b|]; try (split; [discriminate | tauto]).
  pose proof (lex3_spec a b) as H. destruct (lex3 a b); split; intros H';
    try discriminate; try reflexivity; try tauto; try (right; congruence).
  exfalso. destruct H' as [H' | ->];
    [ exact (klt_irrefl _ (klt_trans _ _ _ H H')) | exact (klt_irrefl _ H) ].
Qed.

Lemma le_num x y : le (VNum x) (VNum y) = true <-> num_le x y.
Proof.
  unfold le, IsLessThan, lessThan, num_le; cbn [ToNumber].
  rewrite SFcompare_key.
  destruct (key x) as [a|], (key y) as [b|]; try (split; [discriminate | tauto]).
  pose proof (lex3_spec b a) as H. destruct (lex3 b a); split; intros H';
    try discriminate; try reflexivity; try tauto; try (right; congruence).
  exfalso. destruct H' as [H' | ->];
    [ exact (klt_irrefl _ (klt_trans _ _ _ H H')) | exact (klt_irrefl _ H) ].
Qed.

Lemma gt_num x y : gt (VNum x) (VNum y) = true <-> num_lt y x.
Proof.
  unfold gt, IsLessThan, lessThan, num_lt; cbn [ToNumber].
  rewrite SFcompare_key.
  destruct (key x) as [a|], (key y) as [b|]; try (split; [discriminate | tauto]).
  pose proof (lex3_spec b a) as H. destruct (lex3 b a); split; intros H';
    try discriminate; try reflexivity; try tauto; exfalso.
  - subst. exact (klt_irrefl _ H').
  - exact (klt_irrefl _ (klt_trans _ _ _ H H')).
Qed.

Lemma num_le_lt_trans x y z : num_le x y -> num_lt y z -> num_lt x z.
Proof.
  unfold num_le, num_lt.
  destruct (key x) as [a|], (key y) as [b|], (key z) as [c|]; try tauto.
  intros [H | ->] H'; [ exact (klt_trans _ _ _ H H') | exact H' ].
Qed.

Lemma num_lt_le_trans x y z : num_lt x y -> num_le y z -> num_lt x z.
Proof.
  unfold num_le, num_lt.
  destruct (key x) as [a|], (key y) as [b|], (key z) as [c|]; try tauto.
  intros H [H' | <-]; [ exact (klt_trans _ _ _ H H') | exact H ].
Qed.

Lemma num_lt_irrefl x : ~ num_lt x x.
Proof. unfold num_lt. destruct (key x); [ apply klt_irrefl | tauto ]. Qed.

End Order.


(** ** Rounding in binary64: when a result keeps its sign

    The arithmetic of [SpecFloat] rounds a mantissa and an exponent with
    [binary_round_aux].  A positive mantissa whose magnitude
    [log2 m + 1 + e] lies above [emin] is never rounded to zero: the result
    is finite with the sign asked for and at least that magnitude, or the
    infinity of that sign. *)

Module Binary64.

Import Rounding.

Lemma emin_value : emin = -1074.
Proof. reflexivity. Qed.

Lemma fexp_value (x : Z) : fexp prec emax x = Z.max (x - 53) (-1074).
Proof. reflexivity. Qed.

Lemma digits2_pos_size (p : positive) : digits2_pos p = Pos.size p.
Proof. induction p as [p IH | p IH |]; cbn; rewrite ?IH; reflexivity. Qed.

Lemma Zdigits2_log2 (m : Z) : 0 < m -> Zdigits2 m = Z.log2 m + 1.
Proof.
  destruct m as [| p | p]; try lia. intros _.
  cbn [Zdigits2]. rewrite digits2_pos_size.
  destruct p as [p | p |]; cbn [Pos.size Z.log2]; lia.
Qed.

Lemma shr_1_m (mrs : shr_record) :
  0 <= shr_m mrs -> shr_m (shr_1 mrs) = shr_m mrs / 2.
Proof.
  destruct mrs as [m r s]. cbn [shr_m]. intros Hm.
  destruct m as [| [p | p |] | p]; cbn [shr_1 shr_m]; try lia.
  - reflexivity.
  - rewrite Pos2Z.inj_xI.
    apply (Z.div_unique (2 * Z.pos p + 1) 2 (Z.pos p) 1); lia.
  - rewrite Pos2Z.inj_xO.
    apply (Z.div_unique (2 * Z.pos p) 2 (Z.pos p) 0); lia.
  - reflexivity.
Qed.

Lemma iter_pos_shr_m (n : positive) (mrs : shr_record) :
  0 <= shr_m mrs ->
  shr_m (SpecFloat.iter_pos shr_1 n mrs) = shr_m mrs / 2 ^ Z.pos n.
Proof.
  revert mrs. induction n as [n IH | n IH |]; intros mrs Hm; cbn [SpecFloat.iter_pos].
  - assert (H1 : 0 <= shr_m (shr_1 mrs)).
    { rewrite shr_1_m by exact Hm. apply Z.div_pos; lia. }
    assert (H2 : 0 <= shr_m (SpecFloat.iter_pos shr_1 n (shr_1 mrs))).
    { rewrite IH by exact H1. apply Z.div_pos; lia. }
    rewrite IH by exact H2. rewrite IH by exact H1. rewrite shr_1_m by exact Hm.
    rewrite !Z.div_div by lia.
    assert (Hx : 2 ^ Z.pos n~1 = 2 * (2 ^ Z.pos n * 2 ^ Z.pos n)).
    { rewrite <- Z.pow_add_r by lia. rewrite <- Z.pow_succ_r by lia.
      f_equal. lia. }
    rewrite Hx. reflexivity.
  - assert (H1 : 0 <= shr_m (SpecFloat.iter_pos shr_1 n mrs)).
    { rewrite IH by exact Hm. apply Z.div_pos; lia. }
    rewrite IH by exact H1. rewrite IH by exact Hm.
    rewrite Z.div_div by lia.
    assert (Hx : 2 ^ Z.pos n~0 = 2 ^ Z.pos n * 2 ^ Z.pos n).
    { rewrite <- Z.pow_add_r by lia. f_equal. lia. }
    rewrite Hx. reflexivity.
  - rewrite shr_1_m by exact Hm. reflexivity.
Qed.

Lemma shr_record_of_loc_m (m : Z) (l : location) :
  shr_m (shr_record_of_loc m l) = m.
Proof. destruct l as [| []]; reflexivity. Qed.

Lemma log2_div_pow2 (m n : Z) :
  0 < m -> 0 <= n -> n <= Z.log2 m ->
  0 < m / 2 ^ n /\ Z.log2 (m / 2 ^ n) = Z.log2 m - n.
Proof.
  intros Hm Hn Hle.
  rewrite <- Z.shiftr_div_pow2 by exact Hn.
  rewrite Z.log2_shiftr by exact Hm.
  split; [ | lia ].
  rewrite Z.shiftr_div_pow2 by exact Hn.
  apply Z.div_str_pos. split; [ lia | ].
  apply Z.le_trans with (2 ^ Z.log2 m).
  - apply Z.pow_le_mono_r; lia.
  - apply Z.log2_spec. exact Hm.
Qed.

(** One shift to the exponent [fexp] asks for: the mantissa stays positive
    and the magnitude is unchanged. *)
Lemma shr_fexp_above (m e : Z) (l : location) :
  0 < m -> emin < Z.log2 m + 1 + e ->
  0 < shr_m (fst (shr_fexp prec emax m e l)) /\
  emin <= snd (shr_fexp prec emax m e l) /\
  Z.log2 (shr_m (fst (shr_fexp prec emax m e l))) + 1 + snd (shr_fexp prec emax m e l)
  = Z.log2 m + 1 + e.
Proof.
  intros Hm Habove. unfold shr_fexp. rewrite Zdigits2_log2 by exact Hm.
  rewrite fexp_value. rewrite emin_value in *.
  unfold shr.
  destruct (Z.max (Z.log2 m + 1 + e - 53) (-1074) - e) as [| n | n] eqn:Hn;
    cbn [fst snd]; rewrite ?shr_record_of_loc_m.
  - repeat split; lia.
  - rewrite iter_pos_shr_m by (rewrite shr_record_of_loc_m; lia).
    rewrite shr_record_of_loc_m.
    destruct (log2_div_pow2 m (Z.pos n) Hm) as [Hpos Hlog]; lia.
  - repeat split; lia.
Qed.

Lemma round_nearest_even_above (m : Z) (l : location) :
  0 < m ->
  0 < round_nearest_even m l /\ Z.log2 m <= Z.log2 (round_nearest_even m l).
Proof.
  intros Hm.
  assert (H : m <= round_nearest_even m l).
  { destruct l as [| []]; cbn [round_nearest_even]; try lia.
    destruct (Z.even m); lia. }
  split; [ lia | apply Z.log2_le_mono; exact H ].
Qed.

(** A positive mantissa above the underflow threshold keeps its sign
    through rounding. *)
Lemma binary_round_aux_above (s : bool) (m e : Z) (l : location) :
  0 < m -> emin < Z.log2 m + 1 + e ->
  binary_round_aux prec emax s m e l = S754_infinity s \/
  exists m' e',
    binary_round_aux prec emax s m e l = S754_finite s m' e' /\
    emin <= e' /\
    Z.log2 m + 1 + e <= Z.log2 (Z.pos m') + 1 + e'.
Proof.
  intros Hm Habove. unfold binary_round_aux.
  destruct (shr_fexp_above m e l Hm Habove) as (H1 & H2 & H3).
  destruct (shr_fexp prec emax m e l) as [mrs1 e1]. cbn [fst snd] in H1, H2, H3.
  destruct (round_nearest_even_above (shr_m mrs1) (loc_of_shr_record mrs1) H1)
    as [H4 H5].
  set (m2 := round_nearest_even (shr_m mrs1) (loc_of_shr_record mrs1)) in *.
  destruct (shr_fexp_above m2 e1 loc_Exact H4 ltac:(lia)) as (H6 & H7 & H8).
  destruct (shr_fexp prec emax m2 e1 loc_Exact) as [mrs2 e2].
  cbn [fst snd] in H6, H7, H8.
  destruct (shr_m mrs2) as [| m3 | m3]; try lia.
  destruct (e2 <=? emax - prec); [ right | left; reflexivity ].
  exists m3, e2. repeat split; lia.
Qed.

Lemma pos_iter_xO (m d : positive) :
  Z.pos (Pos.iter xO m d) = Z.pos m * 2 ^ Z.pos d.
Proof.
  induction d as [| d IH] using Pos.peano_ind.
  - cbn [Pos.iter]. rewrite Z.pow_1_r. lia.
  - rewrite Pos.iter_succ, Pos2Z.inj_xO, IH, Pos2Z.inj_succ.
    rewrite Z.pow_succ_r by lia. lia.
Qed.

(** Aligning a mantissa to a smaller exponent keeps the number. *)
Lemma shl_align_spec (m : positive) (e e' : Z) :
  snd (shl_align m e e') = Z.min e e' /\
  Z.pos (fst (shl_align m e e')) = Z.pos m * 2 ^ (e - Z.min e e').
Proof.
  unfold shl_align.
  destruct (e' - e) as [| d | d] eqn:Hd; cbn [fst snd].
  - replace (Z.min e e') with e by lia. rewrite Z.sub_diag, Z.pow_0_r. lia.
  - replace (Z.min e e') with e by lia. rewrite Z.sub_diag, Z.pow_0_r. lia.
  - replace (Z.min e e') with e' by lia.
    rewrite pos_iter_xO. replace (e - e') with (Z.pos d) by lia. lia.
Qed.

Lemma log2_shl_align (m : positive) (e e' : Z) :
  Z.log2 (Z.pos (fst (shl_align m e e'))) + 1 + snd (shl_align m e e')
  = Z.log2 (Z.pos m) + 1 + e.
Proof.
  destruct (shl_align_spec m e e') as [-> ->].
  rewrite Z.log2_mul_pow2 by lia. lia.
Qed.

Lemma binary_round_above (s : bool) (m : positive) (e : Z) :
  emin < Z.log2 (Z.pos m) + 1 + e ->
  binary_round prec emax s m e = S754_infinity s \/
  exists m' e',
    binary_round prec emax s m e = S754_finite s m' e' /\
    emin <= e' /\
    Z.log2 (Z.pos m) + 1 + e <= Z.log2 (Z.pos m') + 1 + e'.
Proof.
  intros Habove. unfold binary_round.
  pose proof (log2_shl_align m e (fexp prec emax (Z.pos (digits2_pos m) + e))) as Hmag.
  destruct (shl_align m e (fexp prec emax (Z.pos (digits2_pos m) + e))) as [mz ez].
  cbn [fst snd] in Hmag. rewrite <- Hmag.
  apply binary_round_aux_above; lia.
Qed.

(** What a valid finite number's mantissa and exponent satisfy. *)
Lemma bounded_spec (m : positive) (e : Z) :
  bounded prec emax m e = true ->
  emin <= e /\ e <= 971 /\
  Z.log2 (Z.pos m) + 1 <= 53 /\
  (emin < e -> Z.log2 (Z.pos m) + 1 = 53).
Proof.
  unfold bounded, canonical_mantissa. intros H.
  apply andb_true_iff in H as [H1 H2].
  apply Z.eqb_eq in H1. apply Z.leb_le in H2.
  rewrite fexp_value in H1.
  change (Z.pos (digits2_pos m)) with (Zdigits2 (Z.pos m)) in H1.
  rewrite Zdigits2_log2 in H1 by lia.
  rewrite emin_value. change (emax - prec) with 971 in H2. lia.
Qed.

(** The exact difference of two valid positive numbers, the smaller
    aligned under the larger: it is positive, and its magnitude reaches the
    exponent of the larger. *)
Lemma aligned_gap (m1 m2 : positive) (e1 e2 : Z) :
  bounded prec emax m1 e1 = true ->
  bounded prec emax m2 e2 = true ->
  e1 < e2 \/ (e1 = e2 /\ Z.pos m1 < Z.pos m2) ->
  0 < Z.pos m2 * 2 ^ (e2 - e1) - Z.pos m1 /\
  e2 <= Z.log2 (Z.pos m2 * 2 ^ (e2 - e1) - Z.pos m1) + 1 + e1.
Proof.
  intros H1 H2 Hlt.
  apply bounded_spec in H1 as (H1a & _ & H1c & _).
  apply bounded_spec in H2 as (H2a & _ & H2c & H2d).
  destruct Hlt as [Hlt | [-> Hlt]].
  - specialize (H2d ltac:(lia)).
    pose proof (Z.log2_spec (Z.pos m2) ltac:(lia)) as [Hm2 _].
    pose proof (Z.log2_spec (Z.pos m1) ltac:(lia)) as [_ Hm1].
    replace (Z.log2 (Z.pos m2)) with 52 in Hm2 by lia.
    assert (Hm1' : Z.pos m1 < 2 ^ 53).
    { eapply Z.lt_le_trans; [ exact Hm1 | ]. apply Z.pow_le_mono_r; lia. }
    set (A := 2 ^ (e2 - e1 - 1)).
    assert (HA : 0 < A) by (apply Z.pow_pos_nonneg; lia).
    assert (Hpow : 2 ^ (e2 - e1) = 2 * A).
    { unfold A. rewrite <- Z.pow_succ_r by lia. f_equal. lia. }
    rewrite Hpow.
    change (2 ^ 52) with 4503599627370496 in Hm2.
    change (2 ^ 53) with 9007199254740992 in Hm1'.
    assert (HG : A <= Z.pos m2 * (2 * A) - Z.pos m1) by nia.
    split; [ lia | ].
    apply Z.log2_le_mono in HG. unfold A in HG at 1.
    rewrite Z.log2_pow2 in HG by lia. lia.
  - rewrite Z.sub_diag, Z.pow_0_r, Z.mul_1_r.
    split; [ lia | ].
    pose proof (Z.log2_nonneg (Z.pos m2 - Z.pos m1)). lia.
Qed.

(** [p - u] for [p < u], [u] positive: negative, of magnitude at least the
    exponent of [u]. *)
Lemma sub_below (p : number) (mu : positive) (eu : Z) :
  valid_binary prec emax p = true ->
  bounded prec emax mu eu = true ->
  SFltb p (S754_finite false mu eu) = true ->
  signed_above true eu (sub p (S754_finite false mu eu)).
Proof.
  intros Hp Hu Hlt.
  pose proof (bounded_spec mu eu Hu) as (Hu1 & _ & _ & _).
  apply Order.SFltb_lt in Hlt. unfold Keys.num_lt in Hlt.
  destruct p as [sp | sp | | sp mp ep]; cbn [Keys.key] in Hlt.
  - right. exists mu, eu.
    split; [ reflexivity | split; [ exact Hu1 | ] ].
    pose proof (Z.log2_nonneg (Z.pos mu)). lia.
  - destruct sp; [ left; reflexivity | cbn in Hlt; lia ].
  - destruct Hlt.
  - cbn [valid_binary] in Hp.
    pose proof (bounded_spec mp ep Hp) as (Hp1 & _ & _ & _).
    unfold sub, SFsub.
    destruct (shl_align_spec mp ep (Z.min ep eu)) as [_ ->].
    destruct (shl_align_spec mu eu (Z.min ep eu)) as [_ ->].
    replace (Z.min ep (Z.min ep eu)) with (Z.min ep eu) by lia.
    replace (Z.min eu (Z.min ep eu)) with (Z.min ep eu) by lia.
    destruct sp; cbn [cond_Zopp Keys.key Keys.klt] in *.
    + set (mp' := Z.pos mp * 2 ^ (ep - Z.min ep eu)).
      set (mu' := Z.pos mu * 2 ^ (eu - Z.min ep eu)).
      assert (Hmp' : 0 < mp') by (apply Z.mul_pos_pos; [ lia | apply Z.pow_pos_nonneg; lia ]).
      assert (Hmu' : 2 ^ (eu - Z.min ep eu) <= mu').
      { unfold mu'. pose proof (Z.pow_pos_nonneg 2 (eu - Z.min ep eu)). nia. }
      destruct (- mp' - mu') as [| g | g] eqn:Hg; try lia.
      cbn [binary_normalize].
      assert (Hlog : eu - Z.min ep eu <= Z.log2 (Z.pos g)).
      { rewrite <- (Z.log2_pow2 (eu - Z.min ep eu)) by lia.
        apply Z.log2_le_mono. lia. }
      destruct (binary_round_above true g (Z.min ep eu) ltac:(lia))
        as [-> | (m & e & -> & He & Hmag)]; [ left; reflexivity | right ].
      exists m, e. repeat split; lia.
    + assert (Hlex : ep < eu \/ (ep = eu /\ Z.pos mp < Z.pos mu)) by lia.
      destruct (aligned_gap mp mu ep eu Hp Hu Hlex) as [Hpos Hmag].
      replace (Z.min ep eu) with ep in * by lia.
      rewrite Z.sub_diag, Z.pow_0_r, Z.mul_1_r.
      destruct (Z.pos mp - Z.pos mu * 2 ^ (eu - ep)) as [| g | g] eqn:Hg; try lia.
      cbn [binary_normalize].
      replace (Z.pos mu * 2 ^ (eu - ep) - Z.pos mp) with (Z.pos g) in Hmag by lia.
      pose proof (Z.log2_nonneg (Z.pos g)).
      destruct (binary_round_above true g ep ltac:(lia))
        as [-> | (m & e & -> & He & Hmag')]; [ left; reflexivity | right ].
      exists m, e. repeat split; lia.
Qed.

(** [p - u] for [p > u], [u] positive: positive, likewise. *)
Lemma sub_above (p : number) (mu : positive) (eu : Z) :
  valid_binary prec emax p = true ->
  bounded prec emax mu eu = true ->
  SFltb (S754_finite false mu eu) p = true ->
  signed_above false eu (sub p (S754_finite false mu eu)).
Proof.
  intros Hp Hu Hlt.
  pose proof (bounded_spec mu eu Hu) as (Hu1 & _ & _ & _).
  apply Order.SFltb_lt in Hlt. unfold Keys.num_lt in Hlt.
  destruct p as [sp | sp | | sp mp ep]; cbn [Keys.key] in Hlt.
  - cbn in Hlt. lia.
  - destruct sp; [ cbn in Hlt; lia | left; reflexivity ].
  - destruct Hlt.
  - cbn [valid_binary] in Hp.
    pose proof (bounded_spec mp ep Hp) as (Hp1 & _ & _ & _).
    destruct sp; cbn [Keys.key Keys.klt] in Hlt; [ lia | ].
    assert (Hlex : eu < ep \/ (eu = ep /\ Z.pos mu < Z.pos mp)) by lia.
    destruct (aligned_gap mu mp eu ep Hu Hp Hlex) as [Hpos Hmag].
    unfold sub, SFsub.
    destruct (shl_align_spec mp ep (Z.min ep eu)) as [_ ->].
    destruct (shl_align_spec mu eu (Z.min ep eu)) as [_ ->].
    replace (Z.min ep (Z.min ep eu)) with eu by lia.
    replace (Z.min eu (Z.min ep eu)) with eu by lia.
    replace (Z.min ep eu) with eu by lia.
    rewrite Z.sub_diag, Z.pow_0_r, Z.mul_1_r. cbn [cond_Zopp].
    destruct (Z.pos mp * 2 ^ (ep - eu) - Z.pos mu) as [| g | g] eqn:Hg; try lia.
    cbn [binary_normalize].
    pose proof (Z.log2_nonneg (Z.pos g)).
    destruct (binary_round_above false g eu ltac:(lia))
      as [-> | (m & e & -> & He & Hmag')]; [ left; reflexivity | right ].
    exists m, e. repeat split; lia.
Qed.

(** The order of two valid positive numbers is the order of their
    multiples of [2 ^ emin]. *)
Lemma scaled_lt (m1 m2 : positive) (e1 e2 : Z) :
  bounded prec emax m1 e1 = true ->
  bounded prec emax m2 e2 = true ->
  e1 < e2 \/ (e1 = e2 /\ Z.pos m1 < Z.pos m2) ->
  Z.pos m1 * 2 ^ (e1 - emin) < Z.pos m2 * 2 ^ (e2 - emin).
Proof.
  intros H1 H2 Hlex.
  destruct (aligned_gap m1 m2 e1 e2 H1 H2 Hlex) as [Hgap _].
  pose proof (bounded_spec m1 e1 H1) as (Hmin & _).
  assert (Hlt : e1 <= e2) by lia.
  replace (e2 - emin) with ((e2 - e1) + (e1 - emin)) by lia.
  rewrite Z.pow_add_r by lia.
  pose proof (Z.pow_pos_nonneg 2 (e1 - emin) ltac:(lia) ltac:(lia)).
  nia.
Qed.

Lemma scaled_pos (m : positive) (e : Z) :
  bounded prec emax m e = true -> 0 < Z.pos m * 2 ^ (e - emin).
Proof.
  intros H. apply bounded_spec in H as (Hmin & _).
  apply Z.mul_pos_pos; [ lia | apply Z.pow_pos_nonneg; lia ].
Qed.

(** Comparing two valid numbers that are not infinite is comparing the
    integers they are multiples of [2 ^ emin] by. *)
Lemma SFcompare_scaled (x y : number) (a b : Z) :
  valid_binary prec emax x = true ->
  valid_binary prec emax y = true ->
  scaled x = Some a -> scaled y = Some b ->
  SFcompare x y = Some (a ?= b).
Proof.
  intros Hx Hy Ha Hb. rewrite Order.SFcompare_key.
  assert (Hlt : forall x y a b,
             valid_binary prec emax x = true -> valid_binary prec emax y = true ->
             scaled x = Some a -> scaled y = Some b ->
             forall kx ky, Keys.key x = Some kx -> Keys.key y = Some ky ->
             Keys.klt kx ky -> a < b).
  { clear. intros x y a b Hx Hy Ha Hb kx ky Hkx Hky Hk.
    destruct x as [sx | sx | | sx mx ex]; try discriminate;
      destruct y as [sy | sy | | sy my ey]; try discriminate;
      cbn [scaled valid_binary Keys.key] in *;
      try destruct sx; try destruct sy;
      injection Ha as <-; injection Hb as <-;
      injection Hkx as <-; injection Hky as <-;
      cbn [cond_Zopp Keys.klt] in *;
      try (pose proof (scaled_pos mx ex Hx));
      try (pose proof (scaled_pos my ey Hy)); try lia.
    - assert (Hlex : ey < ex \/ (ey = ex /\ Z.pos my < Z.pos mx)) by lia.
      pose proof (scaled_lt my mx ey ex Hy Hx Hlex). lia.
    - assert (Hlex : ex < ey \/ (ex = ey /\ Z.pos mx < Z.pos my)) by lia.
      pose proof (scaled_lt mx my ex ey Hx Hy Hlex). lia. }
  destruct (Keys.key x) as [kx |] eqn:Hkx;
    [ | destruct x as [| | |[]]; discriminate ].
  destruct (Keys.key y) as [ky |] eqn:Hky;
    [ | destruct y as [| | |[]]; discriminate ].
  f_equal.
  pose proof (Order.lex3_spec kx ky) as Hspec.
  destruct (Keys.lex3 kx ky).
  - subst ky. symmetry. apply Z.compare_eq_iff.
    clear Hlt Hx Hy. rewrite <- Hky in Hkx. clear Hky.
    destruct x as [sx | sx | | sx mx ex], y as [sy | sy | | sy my ey];
      cbn [scaled Keys.key] in *; try discriminate;
      try destruct sx; try destruct sy; try discriminate;
      injection Ha as <-; injection Hb as <-; try reflexivity;
      injection Hkx as He Hm; cbn [cond_Zopp];
      replace my with mx by congruence; replace ey with ex by lia; reflexivity.
  - symmetry. apply Z.compare_lt_iff.
    exact (Hlt x y a b Hx Hy Ha Hb kx ky Hkx Hky Hspec).
  - symmetry. apply Z.compare_gt_iff.
    exact (Hlt y x b a Hy Hx Hb Ha ky kx Hky Hkx Hspec).
Qed.

Lemma xorb_false_r' (s : bool) : xorb s false = s.
Proof. destruct s; reflexivity. Qed.

(** Dividing by a positive [u] a number whose magnitude reaches the
    exponent of [u] keeps the sign: the quotient cannot underflow. *)
Lemma div_signed (s : bool) (x : number) (mu : positive) (eu : Z) :
  bounded prec emax mu eu = true ->
  signed_above s eu x ->
  signed_above s (-53) (div x (S754_finite false mu eu)).
Proof.
  intros Hu [-> | (mx & ex & -> & Hex & Hmag)].
  - left. cbn. rewrite xorb_false_r'. reflexivity.
  - pose proof (bounded_spec mu eu Hu) as (Hu1 & _ & Hu3 & _).
    unfold div, SFdiv, SFdiv_core_binary. rewrite xorb_false_r'.
    rewrite !Zdigits2_log2 by lia. rewrite fexp_value.
    set (d1 := Z.log2 (Z.pos mx) + 1) in *.
    set (d2 := Z.log2 (Z.pos mu) + 1) in *.
    set (e' := Z.min (Z.max (d1 + ex - (d2 + eu) - 53) (-1074)) (ex - eu)).
    set (sh := ex - eu - e').
    assert (Hsh : d2 - d1 + 53 <= sh) by (unfold sh, e'; lia).
    assert (Hd1 : 1 <= d1) by (unfold d1; pose proof (Z.log2_nonneg (Z.pos mx)); lia).
    assert (Hd2 : 1 <= d2) by (unfold d2; pose proof (Z.log2_nonneg (Z.pos mu)); lia).
    set (m' := match sh with
               | 0 => Z.pos mx
               | Z.pos _ => Z.shiftl (Z.pos mx) sh
               | Z.neg _ => 0
               end).
    assert (Hm' : m' = Z.pos mx * 2 ^ sh).
    { unfold m'. destruct sh as [| k | k] eqn:Hk; try lia.
      apply Z.shiftl_mul_pow2. lia. }
    assert (Hq : fst (Z.div_eucl m' (Z.pos mu)) = m' / Z.pos mu) by reflexivity.
    destruct (Z.div_eucl m' (Z.pos mu)) as [q r]. cbn [fst] in Hq.
    set (j := d1 - 1 + sh - d2).
    assert (Hj : 52 <= j) by (unfold j; lia).
    assert (Hlow : 2 ^ j <= q).
    { rewrite Hq. apply Z.div_le_lower_bound; [ lia | ].
      pose proof (Z.log2_spec (Z.pos mu) ltac:(lia)) as [_ Hmu].
      pose proof (Z.log2_spec (Z.pos mx) ltac:(lia)) as [Hmx _].
      fold d2 in Hmu. replace (Z.succ (Z.log2 (Z.pos mu))) with d2 in Hmu by (unfold d2; lia).
      replace (Z.log2 (Z.pos mx)) with (d1 - 1) in Hmx by (unfold d1; lia).
      rewrite Hm'.
      apply Z.le_trans with (2 ^ d2 * 2 ^ j).
      - apply Z.mul_le_mono_nonneg_r; [ apply Z.pow_nonneg; lia | lia ].
      - rewrite <- Z.pow_add_r by lia.
        replace (d2 + j) with (d1 - 1 + sh) by (unfold j; lia).
        rewrite Z.pow_add_r by lia.
        apply Z.mul_le_mono_nonneg_r; [ apply Z.pow_nonneg; lia | exact Hmx ]. }
    assert (Hqpos : 0 < q).
    { eapply Z.lt_le_trans; [ | exact Hlow ]. apply Z.pow_pos_nonneg; lia. }
    assert (Hlog : j <= Z.log2 q).
    { rewrite <- (Z.log2_pow2 j) by lia. apply Z.log2_le_mono. exact Hlow. }
    assert (Hmagq : -53 <= Z.log2 q + 1 + e') by (unfold j, sh in *; lia).
    destruct (binary_round_aux_above s q e' (new_location (Z.pos mu) r) Hqpos
                ltac:(rewrite emin_value; lia))
      as [-> | (m & e & -> & He & Hmag')]; [ left; reflexivity | right ].
    exists m, e. repeat split; lia.
Qed.

Lemma lit_100 : lit 100 = S754_finite false 7036874417766400 (-46).
Proof. reflexivity. Qed.

(** Multiplying a valid nonzero number by 100 keeps the sign. *)
Lemma mul_100_signed (s : bool) (floor : Z) (x : number) :
  signed_above s floor x ->
  signed_above s emin (mul x (lit 100)).
Proof.
  rewrite lit_100.
  intros [-> | (mx & ex & -> & Hex & _)].
  - left. cbn. rewrite xorb_false_r'. reflexivity.
  - unfold mul, SFmul. rewrite xorb_false_r'.
    assert (Hlog : Z.log2 (Z.pos mx) + 52 <= Z.log2 (Z.pos (mx * 7036874417766400))).
    { rewrite Pos2Z.inj_mul.
      change 52 with (Z.log2 7036874417766400).
      apply Z.log2_mul_below; lia. }
    pose proof (Z.log2_nonneg (Z.pos mx)) as Hnn.
    destruct (binary_round_aux_above s (Z.pos (mx * 7036874417766400)) (ex + -46)
                loc_Exact ltac:(lia) ltac:(lia))
      as [-> | (m & e & -> & He & Hmag')]; [ left; reflexivity | right ].
    exists m, e. repeat split; lia.
Qed.

Lemma signed_true_negative (floor : Z) (x : number) :
  signed_above true floor x -> SFltb x (lit 0) = true.
Proof. intros [-> | (m & e & -> & _)]; reflexivity. Qed.

Lemma signed_false_positive (floor : Z) (x : number) :
  signed_above false floor x -> SFltb (lit 0) x = true.
Proof. intros [-> | (m & e & -> & _)]; reflexivity. Qed.

(** The percent distance from a positive threshold, below and above it. *)
Lemma percent_below (p : number) (mu : positive) (eu : Z) :
  valid_binary prec emax p = true ->
  bounded prec emax mu eu = true ->
  SFltb p (S754_finite false mu eu) = true ->
  SFltb (mul (div (sub p (S754_finite false mu eu)) (S754_finite false mu eu))
             (lit 100))
        (lit 0) = true.
Proof.
  intros Hp Hu Hlt.
  eapply signed_true_negative, mul_100_signed, div_signed; [ exact Hu | ].
  apply sub_below; assumption.
Qed.

Lemma percent_above (p : number) (mu : positive) (eu : Z) :
  valid_binary prec emax p = true ->
  bounded prec emax mu eu = true ->
  SFltb (S754_finite false mu eu) p = true ->
  SFltb (lit 0)
        (mul (div (sub p (S754_finite false mu eu)) (S754_finite false mu eu))
             (lit 100)) = true.
Proof.
  intros Hp Hu Hlt.
  eapply signed_false_positive, mul_100_signed, div_signed; [ exact Hu | ].
  apply sub_above; assumption.
Qed.

(** At the threshold the distance is zero. *)
Lemma percent_at (mu : positive) (eu : Z) :
  mul (div (sub (S754_finite false mu eu) (S754_finite false mu eu))
           (S754_finite false mu eu))
      (lit 100) = S754_zero false.
Proof.
  unfold sub, SFsub.
  destruct (shl_align_spec mu eu (Z.min eu eu)) as [_ ->].
  rewrite Z.sub_diag. reflexivity.
Qed.

End Binary64.
(** ** StockCard and Dashboard: the breach decision *)

Section Breach.

Variable sym : string.
Variables p u d : number.

Let s : stock :=
  {| symbol := sym; current_price := VNum p;
     threshold_up := VNum u; threshold_down := VNum d |}.

Lemma TrendingUp_shown :
  In TrendingUp (titleIcons (StockCard s)) <-> isAboveThreshold s = true.
Proof.
  cbn [StockCard StockCard_with titleIcons].
  destruct (isAboveThreshold s), (isBelowThreshold s); cbn; intuition congruence.
Qed.

Lemma TrendingDown_shown :
  In TrendingDown (titleIcons (StockCard s)) <-> isBelowThreshold s = true.
Proof.
  cbn [StockCard StockCard_with titleIcons].
  destruct (isAboveThreshold s), (isBelowThreshold s); cbn; intuition congruence.
Qed.

Lemma isAboveThreshold_SFleb : isAboveThreshold s = true <-> SFleb u p = true.
Proof.
  unfold isAboveThreshold; cbn [s current_price threshold_up].
  rewrite Order.ge_num, Order.SFleb_le. reflexivity.
Qed.

Lemma isBelowThreshold_SFleb : isBelowThreshold s = true <-> SFleb p d = true.
Proof.
  unfold isBelowThreshold; cbn [s current_price threshold_down].
  rewrite Order.le_num, Order.SFleb_le. reflexivity.
Qed.

Lemma activeAlerts_one : activeAlerts [s] = 1%nat <-> isInAlertZone s = true.
Proof.
  unfold activeAlerts, isInAlertZone, isAboveThreshold, isBelowThreshold.
  cbn [List.filter].
  destruct (ge (current_price s) (threshold_up s) || le (current_price s) (threshold_down s));
    cbn; intuition congruence.
Qed.

End Breach.

(** C1.  For a price [p] and thresholds [u > d] the card shows the 'above'
    direction (the TrendingUp icon) exactly when [p >= u] and the 'below'
    direction (TrendingDown) exactly when [p <= d], in the IEEE 754 order of
    the numbers, that is when it is beyond the threshold or equal to it
    (for valid finite numbers, the order of the values they denote): a
    price equal to a threshold is a breach; with [u > d] the
    two directions never show together; and the Dashboard counts the stock
    as an active alert exactly when one of the two comparisons holds. *)
Theorem breach_decision_inclusive (sym : string) (p u d : number) :
  gt (VNum u) (VNum d) = true ->
  let s := {| symbol := sym; current_price := VNum p;
              threshold_up := VNum u; threshold_down := VNum d |} in
  (In TrendingUp (titleIcons (StockCard s)) <-> SFleb u p = true) /\
  (In TrendingDown (titleIcons (StockCard s)) <-> SFleb p d = true) /\
  (In TrendingUp (titleIcons (StockCard s))
   <-> SFltb u p = true \/ SFeqb u p = true) /\
  (In TrendingDown (titleIcons (StockCard s))
   <-> SFltb p d = true \/ SFeqb p d = true) /\
  (forall a b,
     valid_binary prec emax p = true -> valid_binary prec emax u = true ->
     Rounding.scaled p = Some a -> Rounding.scaled u = Some b ->
     (In TrendingUp (titleIcons (StockCard s)) <-> b <= a)) /\
  (forall a c,
     valid_binary prec emax p = true -> valid_binary prec emax d = true ->
     Rounding.scaled p = Some a -> Rounding.scaled d = Some c ->
     (In TrendingDown (titleIcons (StockCard s)) <-> a <= c)) /\
  (SFeqb p u = true -> In TrendingUp (titleIcons (StockCard s))) /\
  (SFeqb p d = true -> In TrendingDown (titleIcons (StockCard s))) /\
  ~ (In TrendingUp (titleIcons (StockCard s))
     /\ In TrendingDown (titleIcons (StockCard s))) /\
  (activeAlerts [s] = 1%nat <-> SFleb u p = true \/ SFleb p d = true).
Proof.
  intros Hud s.
  pose proof (TrendingUp_shown sym p u d) as Hup.
  pose proof (TrendingDown_shown sym p u d) as Hdown.
  pose proof (isAboveThreshold_SFleb sym p u d) as Ha.
  pose proof (isBelowThreshold_SFleb sym p u d) as Hb.
  fold s in Hup, Hdown, Ha, Hb.
  repeat apply conj.
  - intros H. apply Ha, Hup, H.
  - intros H. apply Hup, Ha, H.
  - intros H. apply Hb, Hdown, H.
  - intros H. apply Hdown, Hb, H.
  - intros H. apply Order.SFleb_lt_or_eq, Ha, Hup, H.
  - intros H. apply Hup, Ha, Order.SFleb_lt_or_eq, H.
  - intros H. apply Order.SFleb_lt_or_eq, Hb, Hdown, H.
  - intros H. apply Hdown, Hb, Order.SFleb_lt_or_eq, H.
  - intros a b Hvp Hvu Hsa Hsb.
    rewrite Hup, Ha. unfold SFleb.
    rewrite (Binary64.SFcompare_scaled u p b a) by assumption.
    destruct (Z.compare_spec b a); split; intros; (lia || reflexivity || discriminate).
  - intros a c Hvp Hvd Hsa Hsc.
    rewrite Hdown, Hb. unfold SFleb.
    rewrite (Binary64.SFcompare_scaled p d a c) by assumption.
    destruct (Z.compare_spec a c); split; intros; (lia || reflexivity || discriminate).
  - intros H. apply Hup, Ha. apply Order.SFleb_le.
    apply Order.SFeqb_eq in H as (a & Hp & Hu).
    unfold Keys.num_le. rewrite Hp, Hu. now right.
  - intros H. apply Hdown, Hb. apply Order.SFleb_le.
    apply Order.SFeqb_eq in H as (a & Hp & Hd).
    unfold Keys.num_le. rewrite Hp, Hd. now right.
  - intros [H1 H2].
    apply Hup, Ha, Order.SFleb_le in H1. apply Hdown, Hb, Order.SFleb_le in H2.
    apply Order.gt_num in Hud.
    apply (Order.num_lt_irrefl d).
    eapply Order.num_lt_le_trans; [ exact Hud | ].
    unfold Keys.num_le in *.
    destruct (Keys.key u) as [ku|], (Keys.key p) as [kp|], (Keys.key d) as [kd|];
      try tauto.
    destruct H1 as [H1 | ->], H2 as [H2 | ->]; auto.
    left. eapply Order.klt_trans; eassumption.
  - intros H. apply (activeAlerts_one sym p u d) in H. fold s in H.
    unfold isInAlertZone in H. apply orb_true_iff in H as [H | H]; [ left | right ].
    + apply Ha, H.
    + apply Hb, H.
  - intros H. apply (activeAlerts_one sym p u d). fold s.
    unfold isInAlertZone. apply orb_true_iff.
    destruct H as [H | H]; [ left; apply Ha, H | right; apply Hb, H ].
Qed.

Lemma breach_decision_inclusive_witness :
  gt (VNum rm_10_50) (VNum rm_9_80) = true /\
  (In TrendingUp
      (titleIcons (StockCard {| symbol := "5285.KL";
                                current_price := VNum rm_10_50;
                                threshold_up := VNum rm_10_50;
                                threshold_down := VNum rm_9_80 |}))
   <-> SFleb rm_10_50 rm_10_50 = true).
Proof.
  split.
  - reflexivity.
  - exact (proj1 (breach_decision_inclusive "5285.KL" rm_10_50 rm_10_50 rm_9_80
                    eq_refl)).
Defined.
(** ** Dashboard: the active-alerts count *)

Lemma activeAlerts_cons (s : stock) (stocks : list stock) :
  activeAlerts (s :: stocks)
  = ((if isInAlertZone s then 1 else 0) + activeAlerts stocks)%nat.
Proof.
  unfold activeAlerts, isInAlertZone, isAboveThreshold, isBelowThreshold.
  cbn [List.filter].
  destruct (ge (current_price s) (threshold_up s) || le (current_price s) (threshold_down s));
    reflexivity.
Qed.

Lemma activeAlerts_app (pre post : list stock) :
  activeAlerts (pre ++ post) = (activeAlerts pre + activeAlerts post)%nat.
Proof.
  induction pre as [| s pre IH]; [ reflexivity | ].
  cbn [app]. rewrite !activeAlerts_cons, IH. lia.
Qed.

(** C10.  The active-alerts count never exceeds the number of stocks: a
    stock anywhere in the list adds 1 to the count when it is in the alert
    zone and 0 otherwise, and a stock that breaches both thresholds at once
    still adds exactly 1. *)
Theorem activeAlerts_le_totalStocks (stocks : list stock) :
  (activeAlerts stocks <= totalStocks stocks)%nat /\
  (forall pre s post, stocks = pre ++ s :: post ->
     activeAlerts stocks
     = (activeAlerts (pre ++ post) + (if isInAlertZone s then 1 else 0))%nat) /\
  (forall pre s post, stocks = pre ++ s :: post ->
     isAboveThreshold s = true -> isBelowThreshold s = true ->
     activeAlerts stocks = (activeAlerts (pre ++ post) + 1)%nat).
Proof.
  assert (Hpos : forall pre s post,
             activeAlerts (pre ++ s :: post)
             = (activeAlerts (pre ++ post) + (if isInAlertZone s then 1 else 0))%nat).
  { intros pre s post. rewrite !activeAlerts_app, activeAlerts_cons. lia. }
  split; [ | split ].
  - unfold totalStocks.
    induction stocks as [| s stocks IH]; [ reflexivity | ].
    rewrite activeAlerts_cons. cbn [length].
    destruct (isInAlertZone s); lia.
  - intros pre s post ->. apply Hpos.
  - intros pre s post -> Ha Hb. rewrite Hpos.
    unfold isInAlertZone. rewrite Ha, Hb. reflexivity.
Qed.

(** A stock with inverted thresholds breaches both and is counted once. *)
Example activeAlerts_double_breach :
  let s := {| symbol := "5285.KL"; current_price := VNum rm_10_00;
              threshold_up := VNum rm_9_80;
              threshold_down := VNum rm_10_50 |} in
  isAboveThreshold s = true /\ isBelowThreshold s = true /\
  activeAlerts [s] = 1%nat /\ totalStocks [s] = 1%nat.
Proof. vm_compute. repeat split. Qed.

(** ** lib/utils.js: calculatePercentageChange *)

(** C9.  [calculatePercentageChange] always returns a number.  When
    [previous] is 0 (of either sign), null, undefined or NaN the result is
    0 and no division is evaluated; for every other [previous] the result
    is [((current - previous) / previous) * 100], and the divisor of the one
    division it evaluates is neither zero nor NaN. *)
Theorem calculatePercentageChange_total (current previous : value) :
  (exists x, calculatePercentageChange current previous = VNum x) /\
  calculatePercentageChange current previous
  = match previous with
    | VUndefined | VNull | VNum S754_nan | VNum (S754_zero _) => VNum (lit 0)
    | VNum prev =>
        VNum (mul (div (sub (ToNumber current) prev) prev) (lit 100))
    end /\
  snd (calculatePercentageChange_traced current previous)
  = match previous with
    | VUndefined | VNull | VNum S754_nan | VNum (S754_zero _) => []
    | VNum prev => [prev]
    end /\
  Forall (fun divisor => SFeqb divisor (lit 0) = false /\ divisor <> S754_nan)
         (snd (calculatePercentageChange_traced current previous)).
Proof.
  unfold calculatePercentageChange, calculatePercentageChange_traced.
  destruct previous as [ | | [[] | [] | | [] mp ep] ]; cbn;
    repeat split; eauto;
    repeat constructor; discriminate.
Qed.

(** ** StockCard: the percent distance *)

Lemma lt_SFltb (x y : number) : lt (VNum x) (VNum y) = SFltb x y.
Proof.
  unfold lt, IsLessThan, lessThan, SFltb; cbn [ToNumber].
  destruct (SFcompare x y) as [[] |]; reflexivity.
Qed.

Lemma gt_SFltb (x y : number) : gt (VNum x) (VNum y) = SFltb y x.
Proof.
  unfold gt, IsLessThan, lessThan, SFltb; cbn [ToNumber].
  destruct (SFcompare y x) as [[] |]; reflexivity.
Qed.

Lemma SFltb_le (x y : number) : SFltb x y = true -> le (VNum x) (VNum y) = true.
Proof.
  intros H. apply Order.le_num. apply Order.SFltb_lt in H.
  unfold Keys.num_lt, Keys.num_le in *.
  destruct (Keys.key x), (Keys.key y); tauto.
Qed.

Lemma SFltb_ge (x y : number) : SFltb y x = true -> ge (VNum x) (VNum y) = true.
Proof.
  intros H. apply Order.ge_num. apply Order.SFltb_lt in H.
  unfold Keys.num_lt, Keys.num_le in *.
  destruct (Keys.key x), (Keys.key y); tauto.
Qed.

(** C4 as it stands fails: the sign of the percentage follows the price
    only for a threshold that is positive and finite.  With price -2 under the lower threshold
    -1 the card reports +100, which is not negative; with price 5 under an
    infinite lower threshold it reports NaN. *)
Lemma percent_sign_counterexample :
  lt (VNum (lit (-2))) (VNum (lit (-1))) = true /\
  lowerPercent (StockCard {| symbol := "5285.KL";
                             current_price := VNum (lit (-2));
                             threshold_up := VNum (lit 1);
                             threshold_down := VNum (lit (-1)) |})
  = Some (VNum (lit 100)) /\
  lt (VNum (lit 100)) (VNum (lit 0)) = false /\
  lt (VNum (lit 5)) (VNum (S754_infinity false)) = true /\
  lowerPercent (StockCard {| symbol := "5285.KL";
                             current_price := VNum (lit 5);
                             threshold_up := VNum (S754_infinity false);
                             threshold_down := VNum (S754_infinity false) |})
  = Some (VNum S754_nan) /\
  lt (VNum S754_nan) (VNum (lit 0)) = false.
Proof. vm_compute. repeat split. Qed.

(** C4, amended.  The percentage the card reports under a threshold is
    [((price - threshold) / threshold) * 100] in binary64 arithmetic.  For
    a positive finite threshold it is signed: under the lower threshold it
    is negative when the price is below the threshold, under the upper
    threshold it is positive when the price is above it, and it is zero
    when the price equals the threshold.  It is used only for reporting:
    whatever is computed in its place, the ring, the icons, the banner and
    the choice of the percentages shown are the same, and the Dashboard's
    count is decided by the alert zone alone. *)
Theorem percent_distance_signed_not_gating (sym : string) (p u d : number) :
  let s := {| symbol := sym; current_price := VNum p;
              threshold_up := VNum u; threshold_down := VNum d |} in
  (forall v, upperPercent (StockCard s) = Some v ->
             v = VNum (mul (div (sub p u) u) (lit 100))) /\
  (forall v, lowerPercent (StockCard s) = Some v ->
             v = VNum (mul (div (sub p d) d) (lit 100))) /\
  (forall m e,
     valid_binary prec emax p = true -> bounded prec emax m e = true ->
     d = S754_finite false m e ->
     lt (VNum p) (VNum d) = true ->
     exists x, lowerPercent (StockCard s) = Some (VNum x)
               /\ lt (VNum x) (VNum (lit 0)) = true) /\
  (forall m e,
     valid_binary prec emax p = true -> bounded prec emax m e = true ->
     u = S754_finite false m e ->
     gt (VNum p) (VNum u) = true ->
     exists x, upperPercent (StockCard s) = Some (VNum x)
               /\ gt (VNum x) (VNum (lit 0)) = true) /\
  (forall t m e,
     valid_binary prec emax p = true -> bounded prec emax m e = true ->
     t = S754_finite false m e ->
     (lt (VNum p) (VNum t) = true ->
      lt (percentOf (VNum p) (VNum t)) (VNum (lit 0)) = true) /\
     (gt (VNum p) (VNum t) = true ->
      gt (percentOf (VNum p) (VNum t)) (VNum (lit 0)) = true)) /\
  (forall m e, d = S754_finite false m e -> p = d ->
               lowerPercent (StockCard s) = Some (VNum (lit 0))) /\
  (forall m e, u = S754_finite false m e -> p = u ->
               upperPercent (StockCard s) = Some (VNum (lit 0))) /\
  (forall distance : value -> value -> value,
     ring (StockCard_with distance s) = ring (StockCard s) /\
     titleIcons (StockCard_with distance s) = titleIcons (StockCard s) /\
     alertBanner (StockCard_with distance s) = alertBanner (StockCard s) /\
     shown (upperPercent (StockCard_with distance s))
     = shown (upperPercent (StockCard s)) /\
     shown (lowerPercent (StockCard_with distance s))
     = shown (lowerPercent (StockCard s))) /\
  activeAlerts [s] = (if isInAlertZone s then 1 else 0)%nat.
Proof.
  intros s.
  split; [ | split; [ | split; [ | split; [ | split; [ | split; [ | split; [ | split ] ] ] ] ] ] ].
  - intros v. cbn [StockCard StockCard_with upperPercent s current_price threshold_up].
    destruct (ge (VNum p) (VNum u)); [ | discriminate ].
    now intros [= <-].
  - intros v. cbn [StockCard StockCard_with lowerPercent s current_price threshold_down].
    destruct (le (VNum p) (VNum d)); [ | discriminate ].
    now intros [= <-].
  - intros m e Hp Hd -> Hlt. rewrite lt_SFltb in Hlt.
    exists (mul (div (sub p (S754_finite false m e)) (S754_finite false m e)) (lit 100)).
    split.
    + cbn [StockCard StockCard_with lowerPercent s current_price threshold_down].
      rewrite (SFltb_le _ _ Hlt). reflexivity.
    + rewrite lt_SFltb. apply Binary64.percent_below; assumption.
  - intros m e Hp Hu -> Hgt. rewrite gt_SFltb in Hgt.
    exists (mul (div (sub p (S754_finite false m e)) (S754_finite false m e)) (lit 100)).
    split.
    + cbn [StockCard StockCard_with upperPercent s current_price threshold_up].
      rewrite (SFltb_ge _ _ Hgt). reflexivity.
    + rewrite gt_SFltb. apply Binary64.percent_above; assumption.
  - intros t m e Hp Ht ->. unfold percentOf, times, divide, minus; cbn [ToNumber].
    rewrite !lt_SFltb, !gt_SFltb. split; intros H.
    + apply Binary64.percent_below; assumption.
    + apply Binary64.percent_above; assumption.
  - intros m e -> ->.
    cbn [StockCard StockCard_with lowerPercent s current_price threshold_down].
    replace (le (VNum (S754_finite false m e)) (VNum (S754_finite false m e)))
      with true.
    + unfold percentOf, times, divide, minus; cbn [ToNumber].
      rewrite Binary64.percent_at. reflexivity.
    + symmetry. apply Order.le_num. unfold Keys.num_le; cbn. now right.
  - intros m e -> ->.
    cbn [StockCard StockCard_with upperPercent s current_price threshold_up].
    replace (ge (VNum (S754_finite false m e)) (VNum (S754_finite false m e)))
      with true.
    + unfold percentOf, times, divide, minus; cbn [ToNumber].
      rewrite Binary64.percent_at. reflexivity.
    + symmetry. apply Order.ge_num. unfold Keys.num_le; cbn. now right.
  - intros distance.
    cbn [StockCard StockCard_with ring titleIcons alertBanner upperPercent lowerPercent].
    repeat split;
      [ destruct (ge (current_price s) (threshold_up s))
      | destruct (le (current_price s) (threshold_down s)) ]; reflexivity.
  - rewrite activeAlerts_cons. cbn. lia.
Qed.

Lemma percent_distance_signed_not_gating_witness :
  exists x,
    lowerPercent (StockCard {| symbol := "5285.KL";
                               current_price := VNum rm_9_75;
                               threshold_up := VNum rm_10_50;
                               threshold_down := VNum rm_9_80 |})
    = Some (VNum x)
    /\ lt (VNum x) (VNum (lit 0)) = true.
Proof.
  exact (proj1 (proj2 (proj2
           (percent_distance_signed_not_gating "5285.KL" rm_9_75 rm_10_50 rm_9_80)))
           5516909543528858%positive (-49) eq_refl eq_refl eq_refl eq_refl).
Defined.

(** ** Alert State Tracker: the cooldown gate *)

Section Cooldown.

Import Engine.

Variable cooldownDuration : Z.
Variable records : gmap (string * direction) Z.

Lemma isEligible_recordFired_same symbol dir t0 now :
  isEligible cooldownDuration (recordFired records symbol dir t0) symbol dir now
  = (t0 + cooldownDuration <=? now).
Proof.
  unfold isEligible, recordFired. rewrite lookup_insert_eq.
  destruct (Z.leb_spec cooldownDuration (now - t0));
    destruct (Z.leb_spec (t0 + cooldownDuration) now); (reflexivity || lia).
Qed.

Lemma isEligible_recordFired_other symbol dir t0 symbol' dir' now :
  (symbol, dir) <> (symbol', dir') ->
  isEligible cooldownDuration (recordFired records symbol dir t0) symbol' dir' now
  = isEligible cooldownDuration records symbol' dir' now.
Proof.
  intros Hne. unfold isEligible, recordFired.
  rewrite lookup_insert_ne by exact Hne. reflexivity.
Qed.

Lemma evaluate_eligible obs config now r :
  In r (evaluate cooldownDuration records obs config now) ->
  eligible r = isEligible cooldownDuration records (obs_symbol obs) (breached r) now.
Proof.
  unfold evaluate. intros H. apply in_app_or in H.
  destruct H as [H | H];
    [ destruct (SFleb (upper config) (price obs))
    | destruct (SFleb (price obs) (lower config)) ];
    cbn in H; try tauto; destruct H as [<- | []]; reflexivity.
Qed.

End Cooldown.

(** C2.  After an alert for (symbol, direction) fired at [t0], with cooldown
    [c]: at every time strictly before [t0 + c] the direction is not
    eligible, and no report of the evaluator for it is; at [t0 + c] and at
    every later time it is eligible; and a direction with no Alert Record is
    eligible at every time. *)
Theorem cooldown_boundary_inclusive
    (records : gmap (string * Engine.direction) Z)
    (symbol : string) (dir : Engine.direction) (t0 c now : Z) :
  let fired := Engine.recordFired records symbol dir t0 in
  (now < t0 + c -> Engine.isEligible c fired symbol dir now = false) /\
  (now < t0 + c ->
   forall obs config r,
     Engine.obs_symbol obs = symbol ->
     In r (Engine.evaluate c fired obs config now) ->
     Engine.breached r = dir -> Engine.eligible r = false) /\
  (t0 + c <= now -> Engine.isEligible c fired symbol dir now = true) /\
  Engine.isEligible c fired symbol dir (t0 + c) = true /\
  (records !! (symbol, dir) = None ->
   Engine.isEligible c records symbol dir now = true).
Proof.
  intros fired. unfold fired.
  repeat split.
  - intros H. rewrite isEligible_recordFired_same. apply Z.leb_gt. exact H.
  - intros H obs config r Hsym Hin Hdir.
    rewrite (evaluate_eligible _ _ _ _ _ _ Hin), Hsym, Hdir.
    rewrite isEligible_recordFired_same. apply Z.leb_gt. exact H.
  - intros H. rewrite isEligible_recordFired_same. apply Z.leb_le. exact H.
  - rewrite isEligible_recordFired_same. apply Z.leb_refl.
  - intros H. unfold Engine.isEligible. rewrite H. reflexivity.
Qed.

(** ** Degenerate thresholds *)

(** C3.  When the price is at once [>= upper] and [<= lower], the card
    shows both directions (both icons and both percentages), and the
    evaluator reports [above] and [below], in that order, each with the
    eligibility of its own (symbol, direction): recording a fire for one
    direction leaves the gate of the other as it was. *)
Theorem degenerate_thresholds_report_both
    (sym : string) (p u d : number) (c : Z)
    (records : gmap (string * Engine.direction) Z) (ts now : Z) :
  ge (VNum p) (VNum u) = true ->
  le (VNum p) (VNum d) = true ->
  let s := {| symbol := sym; current_price := VNum p;
              threshold_up := VNum u; threshold_down := VNum d |} in
  let obs := {| Engine.obs_symbol := sym; Engine.price := p;
                Engine.timestamp := ts |} in
  let config := {| Engine.identifier := sym; Engine.upper := u;
                   Engine.lower := d |} in
  titleIcons (StockCard s) = [TrendingUp; TrendingDown] /\
  upperPercent (StockCard s) = Some (distanceFromUp s) /\
  lowerPercent (StockCard s) = Some (distanceFromDown s) /\
  map (fun r => (Engine.breached r, Engine.eligible r))
      (Engine.evaluate c records obs config now)
  = [ (Engine.above, Engine.isEligible c records sym Engine.above now);
      (Engine.below, Engine.isEligible c records sym Engine.below now) ] /\
  (forall t, Engine.isEligible c (Engine.recordFired records sym Engine.below t)
                               sym Engine.above now
             = Engine.isEligible c records sym Engine.above now) /\
  (forall t, Engine.isEligible c (Engine.recordFired records sym Engine.above t)
                               sym Engine.below now
             = Engine.isEligible c records sym Engine.below now).
Proof.
  intros Hge Hle s obs config.
  assert (Hup : SFleb u p = true) by (apply Order.SFleb_le, Order.ge_num, Hge).
  assert (Hdown : SFleb p d = true) by (apply Order.SFleb_le, Order.le_num, Hle).
  repeat split.
  - cbn [StockCard StockCard_with titleIcons]. unfold isAboveThreshold, isBelowThreshold.
    cbn [s current_price threshold_up threshold_down]. rewrite Hge, Hle. reflexivity.
  - cbn [StockCard StockCard_with upperPercent s current_price threshold_up]. rewrite Hge. reflexivity.
  - cbn [StockCard StockCard_with lowerPercent s current_price threshold_down]. rewrite Hle. reflexivity.
  - unfold Engine.evaluate.
    cbn [obs config Engine.upper Engine.lower Engine.price].
    rewrite Hup, Hdown. reflexivity.
  - intros t. apply isEligible_recordFired_other. congruence.
  - intros t. apply isEligible_recordFired_other. congruence.
Qed.

Lemma degenerate_thresholds_report_both_witness :
  titleIcons (StockCard {| symbol := "5285.KL";
                           current_price := VNum rm_10_00;
                           threshold_up := VNum rm_9_80;
                           threshold_down := VNum rm_10_50 |})
  = [TrendingUp; TrendingDown].
Proof.
  apply (degenerate_thresholds_report_both
           "5285.KL" rm_10_00 rm_9_80 rm_10_50 3600 ∅ 0 0);
    vm_compute; reflexivity.
Defined.

(** ** Notification Dispatcher: retries *)

Section Retry.

Import Engine.

Variable policy : RetryPolicy.

Lemma backoff_mono (i j : nat) :
  (i <= j)%nat -> (backoff policy i <= backoff policy j)%N.
Proof.
  intros Hij. unfold backoff.
  apply N.min_le_compat_r, N.mul_le_mono_l, N.pow_le_mono_r; lia.
Qed.

Lemma attempts_Attempt r run : attempts (Attempt r :: run) = r :: attempts run.
Proof. reflexivity. Qed.

Lemma attempts_Wait w run : attempts (Wait w :: run) = attempts run.
Proof. reflexivity. Qed.

Lemma delays_Attempt r run : delays (Attempt r :: run) = delays run.
Proof. reflexivity. Qed.

Lemma delays_Wait w run : delays (Wait w :: run) = w :: delays run.
Proof. reflexivity. Qed.

(** The attempts of a run are the channel's answers to calls [attempt],
    [attempt + 1], ... and the waits are the backoff delays of those calls
    but the last. *)
Lemma sendWithRetry_shape (send : nat -> SendResult) (remaining attempt : nat) :
  exists n,
    (n <= remaining)%nat /\
    attempts (sendWithRetry policy send attempt remaining)
    = map send (seq attempt n) /\
    delays (sendWithRetry policy send attempt remaining)
    = map (backoff policy) (seq attempt (pred n)) /\
    (forall k, (S k < n)%nat -> send (attempt + k)%nat = transient_error) /\
    (remaining <> 0%nat -> n <> 0%nat).
Proof.
  revert attempt. induction remaining as [| r IH]; intros attempt.
  - exists 0%nat. cbn. repeat split; try lia; tauto.
  - cbn [sendWithRetry]. destruct (send attempt) eqn:Hs.
    + exists 1%nat. cbn. rewrite Hs. repeat split; try lia.
    + destruct r as [| r'].
      * exists 1%nat. cbn. rewrite Hs. repeat split; try lia.
      * destruct (IH (S attempt)) as (n & Hn & Ha & Hd & Ht & Hne).
        exists (S n).
        rewrite attempts_Attempt, attempts_Wait, delays_Attempt, delays_Wait.
        rewrite Ha, Hd. cbn [seq map]. rewrite Hs.
        destruct n as [| n']; [ exfalso; apply Hne; lia | ].
        repeat split; try lia; try reflexivity.
        intros [| k] Hk.
        -- rewrite Nat.add_0_r. exact Hs.
        -- replace (attempt + S k)%nat with (S attempt + k)%nat by lia.
           apply Ht. lia.
    + exists 1%nat. cbn. rewrite Hs. repeat split; try lia.
Qed.

Lemma delays_sorted (send : nat -> SendResult) :
  StronglySorted N.le (delays (sendChannel policy send)).
Proof.
  unfold sendChannel.
  destruct (sendWithRetry_shape send (maxAttempts policy) 0)
    as (n & _ & _ & -> & _).
  generalize (pred n) as m. generalize 0%nat as a.
  intros a m. revert a. induction m as [| m IH]; intros a; cbn [seq map].
  - constructor.
  - constructor; [ apply IH | ].
    apply List.Forall_forall. intros x Hx.
    apply in_map_iff in Hx as (j & <- & Hj). apply in_seq in Hj.
    apply backoff_mono. lia.
Qed.

Lemma only_transient_is_retried (send : nat -> SendResult) pre r next post :
  attempts (sendChannel policy send) = pre ++ r :: next :: post ->
  r = transient_error.
Proof.
  unfold sendChannel.
  destruct (sendWithRetry_shape send (maxAttempts policy) 0)
    as (n & _ & -> & _ & Ht & _).
  intros H.
  assert (Hlen : length (map send (seq 0 n)) = length (pre ++ r :: next :: post))
    by (rewrite H; reflexivity).
  rewrite length_map, length_seq, length_app in Hlen. cbn [length] in Hlen.
  assert (Hr : nth_error (map send (seq 0 n)) (length pre) = Some r).
  { rewrite H, nth_error_app2, Nat.sub_diag by lia. reflexivity. }
  rewrite nth_error_map in Hr.
  rewrite nth_error_seq in Hr.
  destruct (Nat.ltb_spec (length pre) n); [ | lia ].
  cbn in Hr. injection Hr as <-. apply (Ht (length pre)). lia.
Qed.

End Retry.

(** C6.  A send that fails with a transient error on its first two attempts
    and succeeds on the third, under a policy of at least three attempts:
    the run is three attempts with one delivery and two recorded transient
    failures, and the delay before the second retry is at least the delay
    before the first.  For every channel behaviour the delays of a run are
    non-decreasing, and an attempt is followed by another only if it failed
    with a transient error: a permanent error is never retried. *)
Theorem retry_twice_then_delivered
    (policy : Engine.RetryPolicy) (send : nat -> Engine.SendResult) :
  (3 <= Engine.maxAttempts policy)%nat ->
  send 0%nat = Engine.transient_error ->
  send 1%nat = Engine.transient_error ->
  send 2%nat = Engine.delivered ->
  let run := Engine.sendChannel policy send in
  Engine.attempts run
  = [Engine.transient_error; Engine.transient_error; Engine.delivered] /\
  Engine.deliveries run = 1%nat /\
  Engine.transientFailures run = 2%nat /\
  Engine.delays run = [Engine.backoff policy 0; Engine.backoff policy 1] /\
  (Engine.backoff policy 0 <= Engine.backoff policy 1)%N /\
  (forall send', StronglySorted N.le
                   (Engine.delays (Engine.sendChannel policy send'))) /\
  (forall send' pre post,
     Engine.attempts (Engine.sendChannel policy send')
     = pre ++ Engine.permanent_error :: post -> post = []).
Proof.
  intros Hmax H0 H1 H2 run.
  assert (Hrun : run = [Engine.Attempt Engine.transient_error;
                        Engine.Wait (Engine.backoff policy 0);
                        Engine.Attempt Engine.transient_error;
                        Engine.Wait (Engine.backoff policy 1);
                        Engine.Attempt Engine.delivered]).
  { unfold run, Engine.sendChannel.
    destruct (Engine.maxAttempts policy) as [| [| [| m]]]; try lia.
    cbn [Engine.sendWithRetry]. rewrite H0, H1, H2. reflexivity. }
  rewrite Hrun. repeat split.
  - apply backoff_mono. lia.
  - intros send'. apply delays_sorted.
  - intros send' pre post H. destruct post as [| next post]; [ reflexivity | ].
    apply only_transient_is_retried in H. discriminate.
Qed.

Lemma retry_twice_then_delivered_witness :
  Engine.deliveries
    (Engine.sendChannel
       {| Engine.maxAttempts := 3; Engine.baseDelay := 1000;
          Engine.maxDelay := 30000 |}
       (fun k => match k with
                 | 0%nat | 1%nat => Engine.transient_error
                 | _ => Engine.delivered
                 end)) = 1%nat.
Proof.
  apply (retry_twice_then_delivered
           {| Engine.maxAttempts := 3; Engine.baseDelay := 1000;
              Engine.maxDelay := 30000 |}
           (fun k => match k with
                     | 0%nat | 1%nat => Engine.transient_error
                     | _ => Engine.delivered
                     end)); (reflexivity || (cbn; lia)).
Defined.

(** ** Notification Dispatcher: channels and the Alert State Tracker *)

Lemma dispatch_lookup (policy : Engine.RetryPolicy)
    (pre : list Engine.Channel) (c : Engine.Channel) (post : list Engine.Channel) :
  nth_error (Engine.dispatch policy (pre ++ c :: post)) (length pre)
  = Some (Engine.channel c, Engine.sendChannel policy (Engine.send c)).
Proof.
  unfold Engine.dispatch. rewrite nth_error_map.
  rewrite nth_error_app2, Nat.sub_diag by lia. reflexivity.
Qed.

Lemma sendChannel_first_attempt (policy : Engine.RetryPolicy)
    (send : nat -> Engine.SendResult) :
  (1 <= Engine.maxAttempts policy)%nat ->
  exists rest, Engine.sendChannel policy send = Engine.Attempt (send 0%nat) :: rest.
Proof.
  intros H. unfold Engine.sendChannel.
  destruct (Engine.maxAttempts policy) as [| m]; [ lia | ].
  cbn [Engine.sendWithRetry].
  destruct (send 0%nat); [ eauto | | eauto ].
  destruct m; eauto.
Qed.

(** C7.  Firing an alert over any list of channels, under a policy of at
    least one attempt: every channel of the list gets a run of its own,
    which starts with an attempt and is the run it would get alone,
    whatever happened on the channels before it; and the Alert State
    Tracker holds the fire at [now] for (symbol, direction) whatever the
    runs were, so the direction is in cooldown from then on even if nothing
    was delivered. *)
Theorem channel_failure_never_blocks
    (policy : Engine.RetryPolicy) (channels : list Engine.Channel)
    (records : gmap (string * Engine.direction) Z)
    (event : Engine.NotificationEvent) (now : Z) :
  (1 <= Engine.maxAttempts policy)%nat ->
  let results := fst (Engine.fire policy channels records event now) in
  let records' := snd (Engine.fire policy channels records event now) in
  map fst results = map Engine.channel channels /\
  (forall pre c post,
     channels = pre ++ c :: post ->
     nth_error results (length pre)
     = Some (Engine.channel c, Engine.sendChannel policy (Engine.send c))
     /\ exists rest,
         Engine.sendChannel policy (Engine.send c)
         = Engine.Attempt (Engine.send c 0%nat) :: rest) /\
  records' !! (Engine.ev_symbol event, Engine.ev_direction event) = Some now /\
  (forall cooldownDuration later,
     later < now + cooldownDuration ->
     Engine.isEligible cooldownDuration records'
       (Engine.ev_symbol event) (Engine.ev_direction event) later = false).
Proof.
  intros Hmax results records'.
  unfold results, records', Engine.fire; cbn [fst snd].
  repeat split.
  - unfold Engine.dispatch. rewrite map_map. reflexivity.
  - subst channels. apply dispatch_lookup.
  - apply sendChannel_first_attempt, Hmax.
  - unfold Engine.recordFired. apply lookup_insert_eq.
  - intros c later H. rewrite isEligible_recordFired_same.
    apply Z.leb_gt. exact H.
Qed.

Lemma channel_failure_never_blocks_witness :
  (1 <= Engine.maxAttempts three_attempts)%nat /\
  Engine.outcome (fst (Engine.fire three_attempts [email_down; chat_up] ∅ above_5285 300))
  = Engine.partial_success /\
  snd (Engine.fire three_attempts [email_down; chat_up] ∅ above_5285 300)
    !! ("5285.KL", Engine.above) = Some 300.
Proof.
  split; [ cbn; lia | split; [ reflexivity | ] ].
  apply (channel_failure_never_blocks three_attempts [email_down; chat_up] ∅
           above_5285 300).
  cbn; lia.
Defined.

(** The end-to-end scenario of the specification on the model: the first
    quote fires nothing, the second fires 'above' and sets the Alert Record
    to [t0 + 5 min], the third is within the cooldown and fires nothing, and
    the history holds the three observations. *)
Example scenario_5285 :
  Engine.dispatched (step_5285 0 rm_10_20 idle) = [] /\
  map (fun d => (Engine.ev_direction (fst d), Engine.ev_timestamp (fst d),
                 Engine.outcome (snd d)))
      (Engine.dispatched after_three_quotes)
  = [(Engine.above, 300, Engine.partial_success)] /\
  Engine.alertRecords after_three_quotes !! ("5285.KL", Engine.above) = Some 300 /\
  Engine.alertRecords after_three_quotes !! ("5285.KL", Engine.below) = None /\
  Engine.recorded (Engine.history after_three_quotes)
  = [quote_at 0 rm_10_20; quote_at 300 rm_10_55; quote_at 480 rm_10_60].
Proof. vm_compute. repeat split. Qed.

(** ** History Store: rotation *)

Section Rotation.

Import Engine.

Variable header_size : N.
Variable row_size : PriceObservation -> N.
Variable max_size : N.

Local Abbreviation file_size := (Engine.file_size header_size row_size).
Local Abbreviation rotateIfNeeded := (Engine.rotateIfNeeded header_size row_size max_size).
Local Abbreviation append := (Engine.append header_size row_size max_size).
Local Abbreviation appendAll := (Engine.appendAll header_size row_size max_size).

Lemma file_size_fresh_log : file_size fresh_log = header_size.
Proof. unfold Engine.file_size, fresh_log, log_of; cbn. apply N.add_0_r. Qed.

Lemma recorded_write obs st : recorded (write obs st) = recorded st ++ [obs].
Proof. unfold recorded, write; cbn. apply app_assoc. Qed.

Lemma recorded_rotateIfNeeded now st : recorded (rotateIfNeeded now st) = recorded st.
Proof.
  unfold Engine.rotateIfNeeded. destruct (max_size <? file_size (current st))%N;
    [ | reflexivity ].
  unfold recorded; cbn. rewrite flat_map_app; cbn. rewrite !app_nil_r. reflexivity.
Qed.

Lemma recorded_append check now obs st :
  recorded (append check now obs st) = recorded st ++ [obs].
Proof.
  destruct check; cbn [Engine.append].
  - rewrite recorded_write, recorded_rotateIfNeeded. reflexivity.
  - rewrite recorded_rotateIfNeeded, recorded_write. reflexivity.
Qed.

Lemma recorded_appendAll check writes st :
  recorded (appendAll check writes st) = recorded st ++ map snd writes.
Proof.
  revert st. induction writes as [| [now obs] writes IH]; intros st; cbn.
  - rewrite app_nil_r. reflexivity.
  - rewrite IH, recorded_append, <- app_assoc. reflexivity.
Qed.

Lemma appendAll_app check ws1 ws2 st :
  appendAll check (ws1 ++ ws2) st = appendAll check ws2 (appendAll check ws1 st).
Proof.
  revert st. induction ws1 as [| [now obs] ws1 IH]; intros st; cbn; [ reflexivity | apply IH ].
Qed.

(** While no prefix of the log exceeds the maximum, appending rotates
    nothing, under either placement of the check. *)
Lemma appendAll_no_rotation check writes done :
  (forall k, (k <= length writes)%nat ->
             (file_size (Engine.log_of (done ++ firstn k (map snd writes))) <= max_size)%N) ->
  appendAll check writes {| current := Engine.log_of done; backups := [] |}
  = {| current := Engine.log_of (done ++ map snd writes); backups := [] |}.
Proof.
  revert done. induction writes as [| [now obs] writes IH]; intros done Hfit; cbn.
  - rewrite app_nil_r. reflexivity.
  - assert (H0 : (file_size (Engine.log_of done) <= max_size)%N).
    { specialize (Hfit 0%nat). cbn in Hfit. rewrite app_nil_r in Hfit. apply Hfit. lia. }
    assert (H1 : (file_size (Engine.log_of (done ++ [obs])) <= max_size)%N).
    { specialize (Hfit 1%nat). cbn in Hfit. apply Hfit. lia. }
    assert (Hstep : append check now obs {| current := Engine.log_of done; backups := [] |}
                    = {| current := Engine.log_of (done ++ [obs]); backups := [] |}).
    { destruct check; cbn [Engine.append]; unfold Engine.rotateIfNeeded.
      - cbn [current]. destruct (N.ltb_spec max_size (file_size (Engine.log_of done))); [ lia | ].
        reflexivity.
      - unfold write; cbn [current backups Engine.log_of header rows].
        fold (Engine.log_of (done ++ [obs])).
        destruct (N.ltb_spec max_size (file_size (Engine.log_of (done ++ [obs])))); [ lia | ].
        reflexivity. }
    rewrite Hstep, IH.
    + rewrite <- app_assoc. reflexivity.
    + intros k Hk. specialize (Hfit (S k)). cbn in Hfit.
      rewrite <- app_assoc. apply Hfit. lia.
Qed.

End Rotation.

(** C8.  Observations are appended to an empty store; no prefix of the log
    exceeds the maximum until the last append makes it exceed.  With the
    check after the write that append rotates; with the check before the
    write the next append does.  Either way there is then exactly one
    backup, named by the time of the rotation, holding the header and every
    observation appended before the rotation, in order; the log started by
    the rotation is a header alone, does not exceed the maximum (and is
    strictly below it whenever the header is), so a further check rotates
    nothing.  And over any sequence of appends, with any number of
    rotations, the store holds exactly the observations appended, in
    order. *)
Theorem rotation_once_and_nothing_lost
    (header_size : N) (row_size : Engine.PriceObservation -> N) (max_size : N)
    (writes : list (Z * Engine.PriceObservation))
    (now : Z) (obs : Engine.PriceObservation) :
  (forall k, (k <= length writes)%nat ->
     (Engine.file_size header_size row_size
        (Engine.log_of (firstn k (map snd writes))) <= max_size)%N) ->
  (max_size < Engine.file_size header_size row_size
                (Engine.log_of (map snd writes ++ [obs])))%N ->
  let full := Engine.log_of (map snd writes ++ [obs]) in
  let all := writes ++ [(now, obs)] in
  let rotated := {| Engine.current := Engine.fresh_log;
                    Engine.backups := [(now, full)] |} in
  Engine.appendAll header_size row_size max_size Engine.after_append all
    Engine.empty_store = rotated /\
  Engine.appendAll header_size row_size max_size Engine.before_append all
    Engine.empty_store
  = {| Engine.current := full; Engine.backups := [] |} /\
  (forall now' obs',
     Engine.append header_size row_size max_size Engine.before_append now' obs'
       {| Engine.current := full; Engine.backups := [] |}
     = Engine.write obs' {| Engine.current := Engine.fresh_log;
                            Engine.backups := [(now', full)] |}) /\
  Engine.header full = true /\
  Engine.rows full = map snd all /\
  (Engine.file_size header_size row_size Engine.fresh_log <= max_size)%N /\
  (Engine.file_size header_size row_size Engine.fresh_log
   < Engine.file_size header_size row_size full)%N /\
  ((header_size < max_size)%N ->
   (Engine.file_size header_size row_size Engine.fresh_log < max_size)%N) /\
  (forall later,
     Engine.rotateIfNeeded header_size row_size max_size later rotated = rotated) /\
  (forall check ws,
     Engine.recorded
       (Engine.appendAll header_size row_size max_size check ws Engine.empty_store)
     = map snd ws).
Proof.
  intros Hfit Hover full all rotated.
  assert (Hfresh : (Engine.file_size header_size row_size Engine.fresh_log <= max_size)%N).
  { specialize (Hfit 0%nat). cbn in Hfit. apply Hfit. lia. }
  assert (Hbefore : forall check,
             Engine.appendAll header_size row_size max_size check writes
               Engine.empty_store
             = {| Engine.current := Engine.log_of (map snd writes); Engine.backups := [] |}).
  { intros check.
    apply (appendAll_no_rotation header_size row_size max_size check writes []).
    exact Hfit. }
  repeat split.
  - unfold all. rewrite appendAll_app, Hbefore. cbn [Engine.appendAll Engine.append].
    unfold Engine.rotateIfNeeded, Engine.write.
    cbn [Engine.current Engine.backups Engine.log_of Engine.header Engine.rows].
    change {| Engine.header := true; Engine.rows := map snd writes ++ [obs] |}
      with full.
    destruct (N.ltb_spec max_size (Engine.file_size header_size row_size full));
      [ reflexivity | unfold full in *; lia ].
  - unfold all. rewrite appendAll_app, Hbefore. cbn [Engine.appendAll Engine.append].
    unfold Engine.rotateIfNeeded.
    cbn [Engine.current].
    destruct (N.ltb_spec max_size
                (Engine.file_size header_size row_size (Engine.log_of (map snd writes)))) as [Hlt | _].
    + specialize (Hfit (length writes)). rewrite <- (length_map snd) in Hfit.
      rewrite firstn_all in Hfit. specialize (Hfit (Nat.le_refl _)). lia.
    + reflexivity.
  - intros now' obs'. cbn [Engine.append]. unfold Engine.rotateIfNeeded.
    cbn [Engine.current Engine.backups].
    destruct (N.ltb_spec max_size (Engine.file_size header_size row_size full));
      [ reflexivity | unfold full in *; lia ].
  - unfold all. rewrite map_app. reflexivity.
  - exact Hfresh.
  - exact (N.le_lt_trans _ _ _ Hfresh Hover).
  - intros H. rewrite file_size_fresh_log. exact H.
  - intros later. unfold Engine.rotateIfNeeded, rotated. cbn [Engine.current].
    destruct (N.ltb_spec max_size (Engine.file_size header_size row_size Engine.fresh_log));
      [ lia | reflexivity ].
  - intros check ws. rewrite recorded_appendAll. reflexivity.
Qed.

Lemma rotation_once_and_nothing_lost_witness :
  Engine.appendAll 23 (fun _ => 40%N) 100 Engine.after_append
    [(0, quote_at 0 rm_10_20); (300, quote_at 300 rm_10_55)]
    Engine.empty_store
  = {| Engine.current := Engine.fresh_log;
       Engine.backups :=
         [(300, Engine.log_of [quote_at 0 rm_10_20; quote_at 300 rm_10_55])] |}.
Proof.
  apply (rotation_once_and_nothing_lost 23 (fun _ => 40%N) 100
           [(0, quote_at 0 rm_10_20)] 300 (quote_at 300 rm_10_55)).
  - intros [| [| k]] Hk; [ vm_compute; discriminate | vm_compute; discriminate | ].
    cbn [length] in Hk. lia.
  - vm_compute. reflexivity.
Defined.

(** ** Dashboard: the polling effect *)

Section Polling.

Import Timers.

Variable t0 : Z.
Variable ms : Z.
Hypothesis ms_positive : 0 < ms.

(** The clock after [n] milliseconds has passed [n / ms] whole periods. *)
Lemma periods_step (n : Z) :
  0 <= n ->
  ((n / ms + 1) * ms = n + 1 -> (n + 1) / ms = n / ms + 1) /\
  ((n / ms + 1) * ms <> n + 1 -> (n + 1) / ms = n / ms).
Proof using ms_positive.
  intros Hn.
  pose proof (Z.div_mod n ms ltac:(lia)) as Hdm.
  pose proof (Z.mod_pos_bound n ms ms_positive) as Hmod.
  split; intros H.
  - symmetry. apply (Z.div_unique (n + 1) ms (n / ms + 1) 0); lia.
  - symmetry. apply (Z.div_unique (n + 1) ms (n / ms) (n mod ms + 1)); lia.
Qed.

Lemma cycle_times_S (k : nat) :
  cycle_times t0 ms (S k) = (t0 + Z.of_nat (S k) * ms) :: cycle_times t0 ms k.
Proof.
  unfold cycle_times. rewrite (seq_S (S k)), map_app, rev_app_distr. reflexivity.
Qed.

Lemma elapse_polling (n : nat) :
  elapse n (snd (pollEvery ms (loaded t0))) = polling t0 ms n.
Proof using ms_positive.
  induction n as [| n IH].
  - cbn [elapse]. unfold pollEvery, setInterval, fetchStocks, loaded, polling.
    cbn [now nextId timers fetchCalls app fst snd].
    change (Z.of_nat 0) with 0. rewrite Z.div_0_l by lia.
    change (Z.to_nat 0) with 0%nat. unfold cycle_times. cbn [seq map rev app].
    change (Z.of_nat 0) with 0.
    replace (t0 + 0 * ms) with t0 by lia.
    replace (t0 + 0) with t0 by lia.
    replace ((0 + 1) * ms) with ms by lia. reflexivity.
  - cbn [elapse]. rewrite IH. unfold tick, polling.
    cbn [now timers fetchCalls nextId fire due period].
    destruct (periods_step (Z.of_nat n) ltac:(lia)) as [Hhit Hmiss].
    replace (Z.of_nat (S n)) with (Z.of_nat n + 1) by lia.
    destruct (Z.eqb_spec (t0 + (Z.of_nat n / ms + 1) * ms) (t0 + Z.of_nat n + 1)) as [E | E].
    + rewrite (Hhit ltac:(lia)).
      set (q := Z.of_nat n / ms) in *.
      assert (Hq : 0 <= q) by (apply Z.div_pos; lia).
      replace (Z.to_nat (q + 1)) with (S (Z.to_nat q)) by lia.
      rewrite cycle_times_S.
      replace (Z.of_nat (S (Z.to_nat q))) with (q + 1) by lia.
      replace (t0 + (q + 1) * ms + ms) with (t0 + (q + 1 + 1) * ms) by lia.
      replace (t0 + Z.of_nat n + 1) with (t0 + (Z.of_nat n + 1)) by lia.
      replace (t0 + (q + 1) * ms) with (t0 + (Z.of_nat n + 1)) by lia.
      reflexivity.
    + rewrite (Hmiss ltac:(lia)).
      replace (t0 + Z.of_nat n + 1) with (t0 + (Z.of_nat n + 1)) by lia.
      reflexivity.
Qed.

Lemma elapse_without_timers (m : nat) (b : Browser) :
  timers b = [] ->
  timers (elapse m b) = [] /\ fetchCalls (elapse m b) = fetchCalls b.
Proof.
  intros Hb. induction m as [| m [IHt IHc]]; [ split; [ exact Hb | reflexivity ] | ].
  cbn [elapse]. unfold tick. rewrite IHt. cbn. split; [ reflexivity | exact IHc ].
Qed.

End Polling.

(** C5.  The effect calls [fetchStocks] at once, at the time [t0] it runs.
    From then on, [n] milliseconds later the calls made are exactly those at
    [t0], [t0 + ms], ..., one per period begun, so every multiple of the
    period gets its call, without end.  Once the cleanup has cleared the
    interval, no timer is left and no further call is ever made.  The
    Dashboard's period is five minutes. *)
Theorem polling_starts_at_once_and_repeats (t0 ms : Z) :
  0 < ms ->
  let interval := fst (Timers.pollEvery ms (Timers.loaded t0)) in
  let page := snd (Timers.pollEvery ms (Timers.loaded t0)) in
  Timers.fetchCalls page = [t0] /\
  (forall n : nat,
     Timers.fetchCalls (Timers.elapse n page)
     = Timers.cycle_times t0 ms (Z.to_nat (Z.of_nat n / ms))) /\
  (forall k : nat,
     exists n : nat,
       hd_error (Timers.fetchCalls (Timers.elapse n page))
       = Some (t0 + Z.of_nat k * ms)) /\
  (forall n m : nat,
     let stopped := Timers.Dashboard_cleanup interval (Timers.elapse n page) in
     Timers.timers stopped = [] /\
     Timers.fetchCalls (Timers.elapse m stopped)
     = Timers.fetchCalls (Timers.elapse n page)) /\
  Timers.Dashboard_useEffect (Timers.loaded t0)
  = Timers.pollEvery (5 * 60 * 1000) (Timers.loaded t0).
Proof.
  intros Hms interval page.
  split; [ reflexivity | ].
  split; [ intros n; unfold page; rewrite (elapse_polling t0 ms Hms); reflexivity | ].
  split; [ | split; [ | reflexivity ] ].
  - intros k. exists (Z.to_nat (Z.of_nat k * ms)).
    unfold page. rewrite (elapse_polling t0 ms Hms). unfold Timers.polling.
    cbn [Timers.fetchCalls].
    rewrite Z2Nat.id by nia. rewrite Z.div_mul by lia. rewrite Nat2Z.id.
    destruct k as [| k]; [ reflexivity | ].
    rewrite cycle_times_S. reflexivity.
  - intros n m stopped.
    assert (Hnone : Timers.timers stopped = []).
    { unfold stopped, page. rewrite (elapse_polling t0 ms Hms). reflexivity. }
    split; [ exact Hnone | ].
    destruct (elapse_without_timers m stopped Hnone) as [_ ->].
    reflexivity.
Qed.

Lemma polling_starts_at_once_and_repeats_witness :
  0 < 5 * 60 * 1000 /\
  Timers.fetchCalls (snd (Timers.Dashboard_useEffect (Timers.loaded 0))) = [0].
Proof.
  split; [ reflexivity | ].
  exact (proj1 (polling_starts_at_once_and_repeats 0 (5 * 60 * 1000) eq_refl)).
Defined.

(** * The Dashboard page: state, fetching and rendering *)

Section PageFacts.

Context {Alerts : Type} (no_alerts : Alerts).

Lemma activeAlerts_banners (l : list stock) :
  activeAlerts l
  = length (List.filter (fun c : string * StockCardView => alertBanner (snd c))
              (map (fun stock => (symbol stock, StockCard stock)) l)).
Proof.
  induction l as [| s l IH]; [ reflexivity | ].
  rewrite activeAlerts_cons. cbn [map List.filter snd].
  change (alertBanner (StockCard s)) with (isInAlertZone s).
  destruct (isInAlertZone s); cbn [length]; rewrite IH; reflexivity.
Qed.

Lemma activeAlerts_rings (l : list stock) :
  activeAlerts l
  = length (List.filter (fun c : string * StockCardView => ring (snd c))
              (map (fun stock => (symbol stock, StockCard stock)) l)).
Proof.
  induction l as [| s l IH]; [ reflexivity | ].
  rewrite activeAlerts_cons. cbn [map List.filter snd].
  change (ring (StockCard s)) with (isInAlertZone s).
  destruct (isInAlertZone s); cbn [length]; rewrite IH; reflexivity.
Qed.

Lemma state_after_fetch (showToast : bool)
    (r1 : Page.settled (list stock)) (r2 : Page.settled (Page.alertsData Alerts))
    (w : Page.World Alerts) :
  Page.state (Page.fetchStocks no_alerts showToast r1 r2 w)
  = {| Page.stocks := match r1, r2 with
                      | Page.fulfilled d, Page.fulfilled _ => d
                      | _, _ => Page.stocks (Page.state w)
                      end;
       Page.alerts := match r1, r2 with
                      | Page.fulfilled _, Page.fulfilled (Page.having (Some a)) => a
                      | Page.fulfilled _, Page.fulfilled (Page.having None) => no_alerts
                      | _, _ => Page.alerts (Page.state w)
                      end;
       Page.loading := false;
       Page.refreshing := false |}.
Proof.
  destruct showToast, r1 as [d |], r2 as [[| [a |]] |]; reflexivity.
Qed.

Lemma state_after_settle (showToast : bool)
    (r1 : Page.settled (list stock)) (r2 : Page.settled (Page.alertsData Alerts))
    (w : Page.World Alerts) :
  Page.state (Page.fetchStocks_settle no_alerts showToast r1 r2 w)
  = {| Page.stocks := match r1, r2 with
                      | Page.fulfilled d, Page.fulfilled _ => d
                      | _, _ => Page.stocks (Page.state w)
                      end;
       Page.alerts := match r1, r2 with
                      | Page.fulfilled _, Page.fulfilled (Page.having (Some a)) => a
                      | Page.fulfilled _, Page.fulfilled (Page.having None) => no_alerts
                      | _, _ => Page.alerts (Page.state w)
                      end;
       Page.loading := false;
       Page.refreshing := false |}.
Proof.
  destruct showToast, r1 as [d |], r2 as [[| [a |]] |]; reflexivity.
Qed.

Lemma data_after_start (showToast : bool) (w : Page.World Alerts) :
  Page.stocks (Page.state (Page.fetchStocks_start showToast w))
  = Page.stocks (Page.state w)
  /\ Page.alerts (Page.state (Page.fetchStocks_start showToast w))
     = Page.alerts (Page.state w).
Proof. destruct showToast; split; reflexivity. Qed.

End PageFacts.

(** X1.  Once the page is no longer loading, the statistics agree with the
    grid below them: Total Stocks is the number of cards, Active Alerts is
    the number of cards that show the alert banner (and the ring), the
    trend reads 'All clear' exactly when no card shows the banner, and the
    'No Stocks Found' panel stands exactly when the total is 0. *)
Theorem stats_agree_with_grid {Alerts : Type} (st : Page.State Alerts) :
  Page.loading st = false ->
  exists s,
    Page.stats (Page.render st) = Some s /\
    Page.totalCard s = length (Shown.cards (Page.body (Page.render st))) /\
    Page.activeCard s
    = length (List.filter (fun c => alertBanner (snd c))
                (Shown.cards (Page.body (Page.render st)))) /\
    Page.activeCard s
    = length (List.filter (fun c => ring (snd c))
                (Shown.cards (Page.body (Page.render st)))) /\
    (Page.text (Page.activeTrend s) = "All clear"
     <-> List.Forall (fun c => alertBanner (snd c) = false)
           (Shown.cards (Page.body (Page.render st)))) /\
    (Page.isPositive (Page.activeTrend s) = true
     <-> Page.text (Page.activeTrend s) = "All clear") /\
    (Page.body (Page.render st) = Page.NoStocksFound <-> Page.totalCard s = 0%nat).
Proof.
  intros Hl. destruct st as [l a ld rf]. cbn in Hl. subst ld.
  eexists. split; [ reflexivity | ].
  cbn [Page.render Page.stats Page.body Page.loading Page.stocks negb
       Page.totalCard Page.activeCard Page.activeTrend].
  assert (Hcards : Shown.cards
                     (if (0 <? length l)%nat
                      then Page.Grid (map (fun stock => (symbol stock, StockCard stock)) l)
                      else Page.NoStocksFound)
                   = map (fun stock => (symbol stock, StockCard stock)) l).
  { destruct l; reflexivity. }
  rewrite Hcards.
  split; [ unfold totalStocks; now rewrite length_map | ].
  split; [ apply activeAlerts_banners | ].
  split; [ apply activeAlerts_rings | ].
  split; [ | split ].
  - rewrite activeAlerts_banners.
    set (cs := map _ l). clearbody cs. clear.
    induction cs as [| c cs IH]; [ cbn; split; [ constructor | reflexivity ] | ].
    cbn [List.filter]. destruct (alertBanner (snd c)) eqn:Hc.
    + cbn. split; [ discriminate | ]. intros H. inversion H; congruence.
    + split.
      * intros H. constructor; [ exact Hc | apply IH, H ].
      * intros H. apply IH. now inversion H.
  - destruct (0 <? activeAlerts l)%nat; cbn; split; (reflexivity || discriminate).
  - unfold totalStocks. destruct l; cbn; split; (reflexivity || discriminate).
Qed.

Lemma stats_agree_with_grid_witness :
  exists s,
    Page.stats (Page.render
                  {| Page.stocks := [stock_5285 (VNum rm_10_55)]; Page.alerts := tt;
                     Page.loading := false; Page.refreshing := false |})
    = Some s /\ Page.totalCard s = 1%nat.
Proof.
  destruct (stats_agree_with_grid
              {| Page.stocks := [stock_5285 (VNum rm_10_55)]; Page.alerts := tt;
                 Page.loading := false; Page.refreshing := false |} eq_refl)
    as (s & Hs & Ht & _).
  exists s. split; [ exact Hs | ]. rewrite Ht. vm_compute. reflexivity.
Defined.

(** X2.  However a fetch ends, and with or without toasts, it leaves the
    page neither loading nor refreshing: the skeletons are gone, the
    statistics are shown and the button is enabled and reads 'Refresh
    Prices'.  While a manual refresh is in flight the button is disabled
    and reads 'Refreshing...'; a background fetch leaves the button as it
    was, and the end of any fetch enables it again, also when a manual
    refresh started meanwhile is still in flight. *)
Theorem fetch_always_ends_loading {Alerts : Type} (no_alerts : Alerts)
    (showToast : bool) (r1 : Page.settled (list stock))
    (r2 : Page.settled (Page.alertsData Alerts)) (w : Page.World Alerts) :
  let after := Page.state (Page.fetchStocks no_alerts showToast r1 r2 w) in
  let manual := Page.state (Page.fetchStocks_start true w) in
  let background := Page.state (Page.fetchStocks_start false w) in
  Page.loading after = false /\ Page.refreshing after = false /\
  (forall keys, Page.body (Page.render after) <> Page.Skeletons keys) /\
  Page.stats (Page.render after) <> None /\
  Page.buttonDisabled (Page.render after) = false /\
  Page.buttonLabel (Page.render after) = "Refresh Prices" /\
  Page.buttonDisabled (Page.render manual) = true /\
  Page.buttonLabel (Page.render manual) = "Refreshing..." /\
  Page.render background = Page.render (Page.state w) /\
  Page.buttonDisabled
    (Page.render
       (Page.state
          (Page.fetchStocks_settle no_alerts showToast r1 r2
             (Page.fetchStocks_start true
                (Page.fetchStocks_start showToast w))))) = false.
Proof.
  intros after manual background.
  unfold after. rewrite state_after_fetch.
  split; [ reflexivity | ]. split; [ reflexivity | ].
  split.
  { intros keys. cbn [Page.render Page.body Page.loading].
    match goal with |- context [if ?c then Page.Grid _ else _] => destruct c end;
      discriminate. }
  split; [ discriminate | ].
  split; [ reflexivity | ]. split; [ reflexivity | ].
  split; [ reflexivity | ]. split; [ reflexivity | ].
  split.
  { unfold background. destruct w as [[l a ld rf] ts rq ce]. reflexivity. }
  destruct showToast, r1 as [d |], r2 as [[| [a |]] |]; reflexivity.
Qed.

(** X3.  A fetch replaces the data only when both requests succeed.  If
    the stocks request or the alerts request is rejected, the stocks and
    the alerts of the page are left as they were.  If both are fulfilled,
    the stocks are the new ones and the alerts are the response's [alerts]
    property, or the empty object when it has none.  If the alerts response
    is null, the stocks have already been replaced when the error is
    caught, while the alerts stay as they were. *)
Theorem failed_fetch_keeps_data {Alerts : Type} (no_alerts : Alerts)
    (showToast : bool) (w : Page.World Alerts) :
  (forall r2,
     let after := Page.state (Page.fetchStocks no_alerts showToast Page.rejected r2 w) in
     Page.stocks after = Page.stocks (Page.state w) /\
     Page.alerts after = Page.alerts (Page.state w)) /\
  (forall data,
     let after := Page.state (Page.fetchStocks no_alerts showToast
                                (Page.fulfilled data) Page.rejected w) in
     Page.stocks after = Page.stocks (Page.state w) /\
     Page.alerts after = Page.alerts (Page.state w)) /\
  (forall data found,
     let after := Page.state (Page.fetchStocks no_alerts showToast
                                (Page.fulfilled data)
                                (Page.fulfilled (Page.having found)) w) in
     Page.stocks after = data /\
     Page.alerts after = match found with Some a => a | None => no_alerts end) /\
  (forall data,
     let after := Page.fetchStocks no_alerts showToast (Page.fulfilled data)
                    (Page.fulfilled Page.nullish) w in
     Page.stocks (Page.state after) = data /\
     Page.alerts (Page.state after) = Page.alerts (Page.state w) /\
     Page.consoleErrors after = S (Page.consoleErrors w)).
Proof.
  split; [ | split; [ | split ] ]; intros; unfold after;
    rewrite ?state_after_fetch.
  - destruct r2 as [[| [a |]] |]; split; reflexivity.
  - split; reflexivity.
  - destruct found; split; reflexivity.
  - destruct showToast; repeat split.
Qed.

(** X4.  A background fetch never shows a toast, whatever happens.  A
    manual refresh shows exactly two: the loading toast, then the success
    toast if the fetch succeeded and the error toast otherwise, all under
    the one id 'fetch-stocks', so that the second replaces the first.
    Every failed fetch, manual or not, is reported once on the console, and
    a successful one is not. *)
Theorem toasts_only_on_manual_refresh {Alerts : Type} (no_alerts : Alerts)
    (r1 : Page.settled (list stock))
    (r2 : Page.settled (Page.alertsData Alerts)) (w : Page.World Alerts) :
  Page.toasts (Page.fetchStocks no_alerts false r1 r2 w) = Page.toasts w /\
  Page.toasts (Page.handleRefresh no_alerts r1 r2 w)
  = Page.toasts w
    ++ [ {| Page.kind := Page.toast_loading;
            Page.message := "Fetching latest stock prices...";
            Page.toast_id := Some "fetch-stocks" |};
         if Shown.succeeded r1 r2
         then {| Page.kind := Page.toast_success;
                 Page.message := "Stock prices updated!";
                 Page.toast_id := Some "fetch-stocks" |}
         else {| Page.kind := Page.toast_error;
                 Page.message := "Failed to fetch stock data. Please try again.";
                 Page.toast_id := Some "fetch-stocks" |} ] /\
  (forall showToast,
     Page.consoleErrors (Page.fetchStocks no_alerts showToast r1 r2 w)
     = (Page.consoleErrors w + (if Shown.succeeded r1 r2 then 0 else 1))%nat).
Proof.
  split; [ | split ].
  - destruct r1 as [d |], r2 as [[| [a |]] |]; reflexivity.
  - destruct r1 as [d |], r2 as [[| [a |]] |];
      cbn; rewrite <- app_assoc; reflexivity.
  - intros showToast.
    destruct showToast, r1 as [d |], r2 as [[| [a |]] |]; cbn; lia.
Qed.

(** X5.  The two requests are made one after the other: '/stocks' first,
    and '/alerts' only once the stocks have arrived.  A rejected stocks
    request ends the fetch without any alerts request. *)
Theorem alerts_requested_after_stocks {Alerts : Type} (no_alerts : Alerts)
    (showToast : bool) (r1 : Page.settled (list stock))
    (r2 : Page.settled (Page.alertsData Alerts)) (w : Page.World Alerts) :
  Page.requests (Page.fetchStocks_start showToast w)
  = Page.requests w ++ ["/stocks"] /\
  Page.requests (Page.fetchStocks no_alerts showToast r1 r2 w)
  = Page.requests w
    ++ match r1 with
       | Page.fulfilled _ => ["/stocks"; "/alerts"]
       | Page.rejected => ["/stocks"]
       end.
Proof.
  split.
  - destruct showToast; reflexivity.
  - destruct showToast, r1 as [d |], r2 as [[| [a |]] |];
      cbn; rewrite <- ?app_assoc; reflexivity.
Qed.

(** X6.  A first load that fails is rendered exactly as an empty watchlist:
    when either request is rejected the page shows the 'No Stocks Found'
    panel with a total of 0, no active alerts and 'All clear', as it does
    after a successful load of no stocks at all; nothing on the page tells
    the two apart. *)
Theorem failed_first_load_reads_as_empty {Alerts : Type} (no_alerts : Alerts)
    (showToast : bool) (r1 : Page.settled (list stock))
    (r2 : Page.settled (Page.alertsData Alerts)) :
  r1 = Page.rejected \/ r2 = Page.rejected ->
  let failed := Page.state (Page.fetchStocks no_alerts showToast r1 r2
                              (Page.opened no_alerts)) in
  Page.render failed
  = {| Page.stats := Some {| Page.totalCard := 0; Page.activeCard := 0;
                             Page.activeTrend :=
                               {| Page.text := "All clear";
                                  Page.isPositive := true |} |};
       Page.buttonDisabled := false;
       Page.buttonLabel := "Refresh Prices";
       Page.iconSpins := false;
       Page.body := Page.NoStocksFound |} /\
  (forall found,
     Page.render failed
     = Page.render
         (Page.state (Page.fetchStocks no_alerts showToast (Page.fulfilled [])
                        (Page.fulfilled (Page.having found))
                        (Page.opened no_alerts)))).
Proof.
  intros Hfail failed. unfold failed. rewrite state_after_fetch.
  split; [ | intros found; rewrite state_after_fetch ];
    destruct Hfail as [-> | ->]; try reflexivity;
    destruct r1 as [d |]; reflexivity.
Qed.

Lemma failed_first_load_reads_as_empty_witness :
  Page.body
    (Page.render
       (Page.state (Page.fetchStocks tt false Page.rejected Page.rejected
                      (Page.opened tt))))
  = Page.NoStocksFound.
Proof.
  exact (f_equal Page.body
           (proj1 (failed_first_load_reads_as_empty tt false Page.rejected
                     Page.rejected (or_introl eq_refl)))).
Defined.

(** X14.  How overlapping fetches compose.  The responses are applied in
    the order in which they arrive, not in the order of the calls: when a
    second fetch is started before the first has settled and its response
    arrives first, the page ends with the data of the first call, the older
    request; if that late response is a failure, the data of the second
    call stays.  Fetching again with the same outcome changes nothing. *)
Theorem last_response_wins {Alerts : Type} (no_alerts : Alerts)
    (first second : bool) (old new : list stock) (found found' : option Alerts)
    (r1 : Page.settled (list stock)) (r2 : Page.settled (Page.alertsData Alerts))
    (w : Page.World Alerts) :
  let started := Page.fetchStocks_start second (Page.fetchStocks_start first w) in
  let second_settled :=
    Page.fetchStocks_settle no_alerts second (Page.fulfilled new)
      (Page.fulfilled (Page.having found')) started in
  Page.stocks
    (Page.state
       (Page.fetchStocks_settle no_alerts first (Page.fulfilled old)
          (Page.fulfilled (Page.having found)) second_settled)) = old /\
  Page.stocks
    (Page.state
       (Page.fetchStocks_settle no_alerts first Page.rejected r2 second_settled))
  = new /\
  Page.state
    (Page.fetchStocks no_alerts second r1 r2
       (Page.fetchStocks no_alerts first r1 r2 w))
  = Page.state (Page.fetchStocks no_alerts first r1 r2 w).
Proof.
  intros started second_settled.
  split; [ | split ].
  - rewrite state_after_settle. reflexivity.
  - rewrite state_after_settle. unfold second_settled.
    rewrite state_after_settle. destruct r2; reflexivity.
  - rewrite !state_after_fetch.
    destruct r1 as [d |], r2 as [[| [a |]] |]; reflexivity.
Qed.

(** * The polling effect among other timers *)

Section OtherTimers.

Import Timers.

Lemma fire_timers_any_calls (clock : Z) (ts : list (nat * Timer)) (c1 c2 : list Z) :
  fst (fire clock ts c1) = fst (fire clock ts c2).
Proof.
  revert c1 c2. induction ts as [| [id t] ts IH]; intros c1 c2; [ reflexivity | ].
  cbn [fire]. destruct (due t =? clock).
  - specialize (IH (clock :: c1) (clock :: c2)).
    destruct (fire clock ts (clock :: c1)), (fire clock ts (clock :: c2)).
    cbn in *. now rewrite IH.
  - specialize (IH c1 c2).
    destruct (fire clock ts c1), (fire clock ts c2). cbn in *. now rewrite IH.
Qed.

Lemma fire_app (clock : Z) (ts us : list (nat * Timer)) (calls : list Z) :
  fst (fire clock (ts ++ us) calls)
  = fst (fire clock ts calls) ++ fst (fire clock us calls).
Proof.
  revert calls. induction ts as [| [id t] ts IH]; intros calls; [ reflexivity | ].
  cbn [app fire]. destruct (due t =? clock).
  - specialize (IH (clock :: calls)).
    rewrite (fire_timers_any_calls clock us (clock :: calls) calls) in IH.
    destruct (fire clock (ts ++ us) (clock :: calls)), (fire clock ts (clock :: calls)).
    cbn in *. now rewrite IH.
  - specialize (IH calls).
    destruct (fire clock (ts ++ us) calls), (fire clock ts calls).
    cbn in *. now rewrite IH.
Qed.

Lemma fire_ids (clock : Z) (ts : list (nat * Timer)) (calls : list Z) :
  map fst (fst (fire clock ts calls)) = map fst ts.
Proof.
  revert calls. induction ts as [| [id t] ts IH]; intros calls; [ reflexivity | ].
  cbn [fire]. destruct (due t =? clock).
  - specialize (IH (clock :: calls)). destruct (fire clock ts (clock :: calls)).
    cbn in *. now rewrite IH.
  - specialize (IH calls). destruct (fire clock ts calls).
    cbn in *. now rewrite IH.
Qed.

Lemma tick_timers (b : Browser) :
  timers (tick b) = fst (fire (now b + 1) (timers b) (fetchCalls b))
  /\ now (tick b) = now b + 1 /\ nextId (tick b) = nextId b.
Proof.
  unfold tick. destruct (fire (now b + 1) (timers b) (fetchCalls b)).
  repeat split.
Qed.

Lemma elapse_ids (n : nat) (b : Browser) :
  map fst (timers (elapse n b)) = map fst (timers b).
Proof.
  induction n as [| n IH]; [ reflexivity | ].
  cbn [elapse]. destruct (tick_timers (elapse n b)) as [-> _].
  now rewrite fire_ids.
Qed.

(** The page's timer rides behind the others: at every time the timers
    are those the browser would have without the page, then the page's. *)
Lemma elapse_with_page (ms : Z) (b : Browser) (n : nat) :
  exists t,
    timers (elapse n (snd (pollEvery ms b)))
    = timers (elapse n b) ++ [(nextId b, t)]
    /\ now (elapse n (snd (pollEvery ms b))) = now (elapse n b).
Proof.
  induction n as [| n (t & Ht & Hn)].
  - eexists. split; reflexivity.
  - cbn [elapse].
    destruct (tick_timers (elapse n (snd (pollEvery ms b)))) as (-> & -> & _).
    destruct (tick_timers (elapse n b)) as (-> & -> & _).
    rewrite Ht, Hn, fire_app.
    rewrite (fire_timers_any_calls _ (timers (elapse n b)) _ (fetchCalls (elapse n b))).
    cbn [fire]. destruct (due t =? now (elapse n b) + 1); eexists; split; reflexivity.
Qed.

Lemma filter_other_ids (id : nat) (ts : list (nat * Timer)) :
  Forall (fun i => (i < id)%nat) (map fst ts) ->
  List.filter (fun t => negb (Nat.eqb (fst t) id)) ts = ts.
Proof.
  induction ts as [| [i t] ts IH]; [ reflexivity | ].
  cbn [map List.filter fst]. intros H. inversion H as [| ? ? Hi Hts]; subst.
  destruct (Nat.eqb_spec i id); [ lia | ]. cbn. now rewrite IH.
Qed.

End OtherTimers.

(** X7.  On a page where other interval timers are running, the Dashboard
    effect adds one timer under a fresh id and calls [fetchStocks] at once;
    whenever the cleanup runs, it removes that timer and no other: the
    timers left are exactly those the browser would have had without the
    Dashboard.  Mounting again after a cleanup leaves one Dashboard timer,
    not two, and has called [fetchStocks] once per mount. *)
Theorem cleanup_removes_only_own_interval (b : Timers.Browser) (n : nat) :
  Forall (fun t => (fst t < Timers.nextId b)%nat) (Timers.timers b) ->
  let interval := fst (Timers.Dashboard_useEffect b) in
  let page := snd (Timers.Dashboard_useEffect b) in
  let again := snd (Timers.Dashboard_useEffect (Timers.Dashboard_cleanup interval page)) in
  Timers.timers page
  = Timers.timers b
    ++ [(interval, {| Timers.period := 5 * 60 * 1000;
                      Timers.due := Timers.now b + 5 * 60 * 1000 |})] /\
  Timers.fetchCalls page = Timers.now b :: Timers.fetchCalls b /\
  Timers.timers (Timers.Dashboard_cleanup interval (Timers.elapse n page))
  = Timers.timers (Timers.elapse n b) /\
  length (Timers.timers again) = S (length (Timers.timers b)) /\
  Timers.fetchCalls again = Timers.now b :: Timers.now b :: Timers.fetchCalls b.
Proof.
  intros Hfresh interval page again.
  assert (Hids : forall k, Forall (fun i => (i < Timers.nextId b)%nat)
                             (map fst (Timers.timers (Timers.elapse k b)))).
  { intros k. rewrite elapse_ids. apply List.Forall_map. exact Hfresh. }
  assert (Hclean : forall k,
             Timers.timers (Timers.Dashboard_cleanup interval (Timers.elapse k page))
             = Timers.timers (Timers.elapse k b)).
  { intros k. unfold page, Timers.Dashboard_useEffect.
    destruct (elapse_with_page (5 * 60 * 1000) b k) as (t & Ht & _).
    cbn [Timers.Dashboard_cleanup Timers.clearInterval Timers.timers].
    rewrite Ht, List.filter_app, filter_other_ids by apply Hids.
    cbn [List.filter fst interval Timers.pollEvery Timers.setInterval
         Timers.fetchStocks Timers.nextId].
    rewrite Nat.eqb_refl. cbn. apply app_nil_r. }
  split; [ reflexivity | ]. split; [ reflexivity | ].
  split; [ apply Hclean | ].
  split.
  - pose proof (Hclean 0%nat) as H0. cbn [Timers.elapse] in H0.
    unfold again, Timers.Dashboard_useEffect, Timers.pollEvery, Timers.setInterval.
    cbn [snd Timers.timers Timers.fetchStocks].
    fold (Timers.Dashboard_useEffect b). fold interval. fold page.
    rewrite H0, length_app. cbn. lia.
  - reflexivity.
Qed.

Lemma cleanup_removes_only_own_interval_witness :
  Timers.timers
    (Timers.Dashboard_cleanup (fst (Timers.Dashboard_useEffect busy_page))
       (Timers.elapse 2000 (snd (Timers.Dashboard_useEffect busy_page))))
  = Timers.timers (Timers.elapse 2000 busy_page).
Proof.
  refine (proj1 (proj2 (proj2 (cleanup_removes_only_own_interval busy_page 2000 _)))).
  repeat constructor.
Defined.

(** * Formatting: toFixed, formatPercentage and the texts of the card *)

Section Texts.

Import Format.

Lemma append_cons (c : ascii) (a b : string) :
  String c a +:+ b = String c (a +:+ b).
Proof. reflexivity. Qed.

Lemma append_nil (b : string) : EmptyString +:+ b = b.
Proof. reflexivity. Qed.

Lemma append_assoc (a b c : string) : (a +:+ b) +:+ c = a +:+ (b +:+ c).
Proof.
  induction a as [| x a IH]; [ reflexivity | ].
  rewrite !append_cons. now rewrite IH.
Qed.

Lemma length_append (a b : string) :
  String.length (a +:+ b) = (String.length a + String.length b)%nat.
Proof.
  induction a as [| c a IH]; [ reflexivity | ].
  rewrite append_cons. cbn [String.length Nat.add]. now rewrite IH.
Qed.

Lemma allDigits_append (a b : string) :
  allDigits (a +:+ b) = allDigits a && allDigits b.
Proof.
  induction a as [| c a IH]; [ reflexivity | ].
  rewrite append_cons. cbn [allDigits]. rewrite IH. now rewrite andb_assoc.
Qed.

Lemma substring_glue (s : string) (k : nat) :
  (k <= String.length s)%nat ->
  substring 0 k s +:+ substring k (String.length s - k) s = s.
Proof.
  revert k. induction s as [| c s IH]; intros k Hk.
  - cbn in Hk. assert (k = 0%nat) as -> by lia. reflexivity.
  - destruct k as [| k].
    + cbn [substring String.length Nat.sub]. rewrite append_nil. f_equal.
      specialize (IH 0%nat ltac:(lia)).
      rewrite Nat.sub_0_r in IH.
      destruct (String.length s) eqn:Hl.
      * destruct s; [ reflexivity | discriminate ].
      * destruct s as [| c' s']; [ discriminate | ].
        cbn [substring] in IH. rewrite append_nil in IH. exact IH.
    + cbn [substring String.length Nat.sub]. rewrite append_cons. f_equal.
      apply IH. cbn in Hk. lia.
Qed.

Lemma length_substring (s : string) (n m : nat) :
  (n + m <= String.length s)%nat -> String.length (substring n m s) = m.
Proof.
  revert n m. induction s as [| c s IH]; intros n m H.
  - cbn in H. assert (n = 0%nat) as -> by lia. assert (m = 0%nat) as -> by lia.
    reflexivity.
  - destruct n as [| n].
    + destruct m as [| m]; [ reflexivity | ].
      cbn [substring String.length]. f_equal. apply IH. cbn in H. lia.
    + cbn [substring]. apply IH. cbn in H. lia.
Qed.

Lemma allDigits_substring (s : string) (n m : nat) :
  allDigits s = true -> allDigits (substring n m s) = true.
Proof.
  revert n m. induction s as [| c s IH]; intros n m H.
  - destruct n, m; reflexivity.
  - cbn in H. apply andb_true_iff in H as [Hc Hs].
    destruct n as [| n].
    + destruct m as [| m]; [ reflexivity | ].
      cbn [substring allDigits]. rewrite Hc. cbn. now apply IH.
    + cbn [substring]. now apply IH.
Qed.

Lemma allDigits_zeros (k : nat) : allDigits (zeros k) = true.
Proof. induction k; [ reflexivity | exact IHk ]. Qed.

Lemma length_zeros (k : nat) : String.length (zeros k) = k.
Proof.
  induction k as [| k IH]; [ reflexivity | ].
  cbn [zeros String.length]. now rewrite IH.
Qed.

Lemma string_of_uint_allDigits (d : uint) :
  allDigits (NilEmpty.string_of_uint d) = true.
Proof. induction d; cbn; try reflexivity; exact IHd. Qed.

Lemma digits_nonempty (n : N) : (1 <= String.length (digits n))%nat.
Proof.
  unfold digits. destruct n as [| p]; [ cbn; lia | ].
  cbn [N.to_uint]. pose proof (Unsigned.to_uint_nonnil p) as H.
  destruct (Pos.to_uint p); [ now elim H | .. ]; cbn; lia.
Qed.

Lemma readDigits_digits (n : N) : readDigits (digits n) = Some n.
Proof.
  unfold readDigits, digits. rewrite NilEmpty.usu. cbn.
  now rewrite DecimalN.Unsigned.of_to.
Qed.

Lemma readDigits_zeros (k : nat) (s : string) :
  readDigits (zeros k +:+ s) = readDigits s.
Proof.
  induction k as [| k IH]; [ reflexivity | ].
  unfold readDigits in *. cbn [zeros]. rewrite append_cons.
  cbn [NilEmpty.uint_of_string].
  rewrite <- IH.
  destruct (NilEmpty.uint_of_string (zeros k +:+ s)) as [d |]; reflexivity.
Qed.

(** The text of [n] with [f + 1] decimals: a whole part of at least one
    digit, a point, and exactly [f + 1] digits, which read together are
    [n]. *)
Lemma fixedDigits_shape (f : nat) (n : N) :
  exists whole frac,
    fixedDigits (S f) n = whole +:+ "." +:+ frac
    /\ (1 <= String.length whole)%nat /\ allDigits whole = true
    /\ String.length frac = S f /\ allDigits frac = true
    /\ readDigits (whole +:+ frac) = Some n.
Proof.
  unfold fixedDigits.
  set (m := if (String.length (digits n) <=? S f)%nat
            then zeros (S f + 1 - String.length (digits n)) +:+ digits n
            else digits n).
  set (k := if (String.length (digits n) <=? S f)%nat
            then (S f + 1)%nat else String.length (digits n)).
  pose proof (digits_nonempty n) as Hne.
  assert (Hk : String.length m = k /\ (S f < k)%nat).
  { unfold m, k. destruct (Nat.leb_spec (String.length (digits n)) (S f)).
    - rewrite length_append, length_zeros. lia.
    - lia. }
  destruct Hk as [Hlen Hk].
  assert (Hd : allDigits m = true).
  { unfold m. destruct (String.length (digits n) <=? S f)%nat.
    - rewrite allDigits_append, allDigits_zeros. apply string_of_uint_allDigits.
    - apply string_of_uint_allDigits. }
  assert (Hr : readDigits m = Some n).
  { unfold m. destruct (String.length (digits n) <=? S f)%nat.
    - rewrite readDigits_zeros. apply readDigits_digits.
    - apply readDigits_digits. }
  exists (substring 0 (k - S f) m), (substring (k - S f) (S f) m).
  split; [ reflexivity | ].
  split; [ rewrite length_substring by lia; lia | ].
  split; [ now apply allDigits_substring | ].
  split; [ apply length_substring; lia | ].
  split; [ now apply allDigits_substring | ].
  pose proof (substring_glue m (k - S f) ltac:(lia)) as Hglue.
  replace (String.length m - (k - S f))%nat with (S f) in Hglue by lia.
  rewrite Hglue. exact Hr.
Qed.

(** [nearest] is the integer the language asks for: of a number with a
    fraction, [m / 2^(-e)], the hundredths [n] with
    [n - 1/2 <= 100 * m / 2^(-e) < n + 1/2]; of a whole number, its exact
    hundredfold. *)
Lemma nearest_half_up (m : positive) (e : Z) :
  (e < 0 ->
   2 * 2 ^ (- e) * Z.of_N (nearest 2 m e) <= 200 * Z.pos m + 2 ^ (- e)
   /\ 200 * Z.pos m + 2 ^ (- e) < 2 * 2 ^ (- e) * (Z.of_N (nearest 2 m e) + 1))
  /\ (0 <= e -> Z.of_N (nearest 2 m e) = 100 * (Z.pos m * 2 ^ e)).
Proof.
  unfold nearest. split; intros He.
  - destruct (Z.leb_spec 0 e); [ lia | ].
    replace (1 - e) with (Z.succ (- e)) by lia.
    rewrite Z.pow_succ_r by lia.
    change (10 ^ Z.of_nat 2) with 100.
    set (d := 2 ^ (- e)).
    assert (Hd : 0 < d) by (apply Z.pow_pos_nonneg; lia).
    set (a := 2 * Z.pos m * 100 + d).
    pose proof (Z.div_mod a (2 * d) ltac:(lia)) as Hdiv.
    pose proof (Z.mod_pos_bound a (2 * d) ltac:(lia)) as Hmod.
    assert (Hq : 0 <= a / (2 * d)) by (apply Z.div_pos; unfold a; lia).
    rewrite Z2N.id by exact Hq.
    unfold a in *. nia.
  - destruct (Z.leb_spec 0 e); [ | lia ].
    change (10 ^ Z.of_nat 2) with 100.
    assert (0 <= 2 ^ e) by (apply Z.pow_nonneg; lia).
    rewrite Z2N.id by nia. lia.
Qed.

Lemma lit_0 : lit 0 = S754_zero false.
Proof. reflexivity. Qed.

(** Past its guard, [formatPercentage] on a finite number. *)
Lemma formatPercentage_finite (NumberToString : number -> string)
    (s : bool) (m : positive) (e : Z) :
  formatPercentage NumberToString (VNum (S754_finite s m e))
  = (if s then "-" else "+")
    +:+ (if atLeast1e21 m e
         then NumberToString (S754_finite false m e)
         else fixedDigits 2 (nearest 2 m e))
    +:+ "%".
Proof.
  unfold formatPercentage. rewrite lit_0. destruct s; reflexivity.
Qed.

Lemma formatPercentage_positive (NumberToString : number -> string) (x : number) :
  SFltb (lit 0) x = true ->
  String.get 0 (formatPercentage NumberToString (VNum x)) = Some "+"%char.
Proof.
  destruct x as [[] | [] | | [] m e]; try discriminate; intros _;
    [ reflexivity | rewrite formatPercentage_finite; reflexivity ].
Qed.

Lemma formatPercentage_negative (NumberToString : number -> string) (x : number) :
  SFltb x (lit 0) = true ->
  String.get 0 (formatPercentage NumberToString (VNum x)) = Some "-"%char.
Proof.
  destruct x as [[] | [] | | [] m e]; try discriminate; intros _;
    [ reflexivity | rewrite formatPercentage_finite; reflexivity ].
Qed.

End Texts.

(** X8.  [formatPercentage] never prints a NaN or a missing value: for
    null, undefined and NaN the text is '0.00%', without a sign.  For every
    other number the text carries an explicit sign: its first character is
    '+' when the number is positive or a zero of either sign (which reads
    '+0.00%'), and '-' when it is negative, the infinities included, which
    read '+Infinity%' and '-Infinity%'. *)
Theorem formatPercentage_signed (NumberToString : number -> string) (x : number) :
  Format.formatPercentage NumberToString VNull = "0.00%" /\
  Format.formatPercentage NumberToString VUndefined = "0.00%" /\
  Format.formatPercentage NumberToString (VNum S754_nan) = "0.00%" /\
  (forall s, Format.formatPercentage NumberToString (VNum (S754_zero s)) = "+0.00%") /\
  (SFltb (lit 0) x = true ->
   String.get 0 (Format.formatPercentage NumberToString (VNum x)) = Some "+"%char) /\
  (SFltb x (lit 0) = true ->
   String.get 0 (Format.formatPercentage NumberToString (VNum x)) = Some "-"%char) /\
  Format.formatPercentage NumberToString (VNum (S754_infinity false)) = "+Infinity%" /\
  Format.formatPercentage NumberToString (VNum (S754_infinity true)) = "-Infinity%".
Proof.
  split; [ reflexivity | ]. split; [ reflexivity | ]. split; [ reflexivity | ].
  split; [ intros []; reflexivity | ].
  split; [ apply formatPercentage_positive | ].
  split; [ apply formatPercentage_negative | ].
  split; reflexivity.
Qed.

(** X9.  For a finite number below 10^21 in magnitude, [formatPercentage]
    prints the sign, a whole part of at least one digit, a point, exactly
    two digits and the percent sign, and nothing else; the digits printed,
    read as one integer [n], are the number's magnitude in hundredths
    rounded to the nearest, a tie going up: for a magnitude
    [m / 2^(-e)] with a fraction, [n - 1/2 <= 100 * m / 2^(-e) < n + 1/2]. *)
Theorem formatPercentage_two_decimals (NumberToString : number -> string)
    (s : bool) (m : positive) (e : Z) :
  Format.atLeast1e21 m e = false ->
  exists whole cents n,
    Format.formatPercentage NumberToString (VNum (S754_finite s m e))
    = (if s then "-" else "+") +:+ whole +:+ "." +:+ cents +:+ "%" /\
    (1 <= String.length whole)%nat /\ Format.allDigits whole = true /\
    String.length cents = 2%nat /\ Format.allDigits cents = true /\
    Format.readDigits (whole +:+ cents) = Some n /\
    (e < 0 ->
     2 * 2 ^ (- e) * Z.of_N n <= 200 * Z.pos m + 2 ^ (- e)
     /\ 200 * Z.pos m + 2 ^ (- e) < 2 * 2 ^ (- e) * (Z.of_N n + 1)) /\
    (0 <= e -> Z.of_N n = 100 * (Z.pos m * 2 ^ e)).
Proof.
  intros Hsmall. rewrite formatPercentage_finite, Hsmall.
  destruct (fixedDigits_shape 1 (Format.nearest 2 m e))
    as (whole & cents & -> & Hw & Hwd & Hc & Hcd & Hr).
  exists whole, cents, (Format.nearest 2 m e).
  split; [ now rewrite !append_assoc | ].
  destruct (nearest_half_up m e) as [Hfrac Hint].
  repeat apply conj; assumption.
Qed.

Lemma formatPercentage_two_decimals_witness :
  exists whole cents,
    Format.formatPercentage (fun _ => EmptyString) (VNum rm_9_75)
    = "+" +:+ whole +:+ "." +:+ cents +:+ "%"
    /\ String.length cents = 2%nat.
Proof.
  destruct (formatPercentage_two_decimals (fun _ => EmptyString) false
              5488762045857792%positive (-49) eq_refl)
    as (whole & cents & n & Htext & _ & _ & Hlen & _).
  exists whole, cents. split; [ exact Htext | exact Hlen ].
Defined.

(** * The percentage of a change, printed *)

Section Quotients.

Import Format.

(** A number divided by itself, or by its opposite, is exactly 1 or -1. *)
Lemma div_self (s1 s2 : bool) (m : positive) (e : Z) :
  div (S754_finite s1 m e) (S754_finite s2 m e)
  = S754_finite (xorb s1 s2) 4503599627370496 (-52).
Proof.
  unfold div, SFdiv, SFdiv_core_binary.
  replace (Zdigits2 (Z.pos m) + e - (Zdigits2 (Z.pos m) + e)) with 0 by lia.
  rewrite Z.sub_diag.
  change (Z.min (fexp prec emax 0) 0) with (-53).
  change (0 - -53) with 53.
  cbv iota beta zeta.
  assert (Hq : Z.div_eucl (Z.shiftl (Z.pos m) 53) (Z.pos m) = (2 ^ 53, 0)).
  { rewrite Z.shiftl_mul_pow2 by lia.
    pose proof (Z.div_mul (2 ^ 53) (Z.pos m) ltac:(lia)) as Hd.
    pose proof (Z.mod_mul (2 ^ 53) (Z.pos m) ltac:(lia)) as Hm.
    rewrite (Z.mul_comm (2 ^ 53)) in Hd, Hm.
    unfold Z.div, Z.modulo in Hd, Hm.
    destruct (Z.div_eucl (Z.pos m * 2 ^ 53) (Z.pos m)) as [q r].
    cbn [fst snd] in Hd, Hm. now subst. }
  rewrite Hq.
  assert (Hl : new_location (Z.pos m) 0 = loc_Exact).
  { unfold new_location. destruct (Z.even (Z.pos m)); reflexivity. }
  rewrite Hl. destruct (xorb s1 s2); reflexivity.
Qed.

Lemma minus_100 :
  mul (S754_finite true 4503599627370496 (-52)) (lit 100)
  = S754_finite true 7036874417766400 (-46).
Proof. reflexivity. Qed.

Lemma toFixed_minus_100 (NumberToString : number -> string) :
  toFixed NumberToString 2 (S754_finite true 7036874417766400 (-46)) = "-100.00".
Proof. reflexivity. Qed.

(** The percentage of a fall from a number to zero is -100. *)
Lemma percent_from_zero (z s : bool) (m : positive) (e : Z) :
  mul (div (sub (S754_zero z) (S754_finite s m e)) (S754_finite s m e)) (lit 100)
  = S754_finite true 7036874417766400 (-46).
Proof.
  unfold sub. cbn [SFsub]. rewrite div_self.
  replace (xorb (negb s) s) with true by (destruct s; reflexivity).
  apply minus_100.
Qed.

Lemma change_from_finite (current : value) (s : bool) (m : positive) (e : Z) :
  calculatePercentageChange current (VNum (S754_finite s m e))
  = VNum (mul (div (sub (ToNumber current) (S754_finite s m e))
                   (S754_finite s m e)) (lit 100)).
Proof. destruct s; reflexivity. Qed.

End Quotients.

(** X10.  The text of a change, [formatPercentage] of
    [calculatePercentageChange]: when the previous value is missing, NaN or
    zero the text is '+0.00%'; when the previous value is a finite number
    other than zero, an undefined or NaN current value reads '0.00%' and a
    null or zero current value reads '-100.00%'; and against a positive
    previous value the first character is '-' when the current value is
    below it and '+' when it is above, with '+0.00%' when they are equal. *)
Theorem percentage_change_text (NumberToString : number -> string)
    (current previous : value) :
  let text := Format.formatPercentage NumberToString
                (calculatePercentageChange current previous) in
  (ToBoolean previous = false -> text = "+0.00%") /\
  (forall s m e,
     previous = VNum (S754_finite s m e) ->
     (current = VUndefined \/ current = VNum S754_nan -> text = "0.00%") /\
     (current = VNull \/ (exists z, current = VNum (S754_zero z)) ->
      text = "-100.00%")) /\
  (forall p m e,
     current = VNum p -> previous = VNum (S754_finite false m e) ->
     valid_binary prec emax p = true -> bounded prec emax m e = true ->
     (SFltb p (S754_finite false m e) = true -> String.get 0 text = Some "-"%char) /\
     (SFltb (S754_finite false m e) p = true -> String.get 0 text = Some "+"%char) /\
     (p = S754_finite false m e -> text = "+0.00%")).
Proof.
  intros text. unfold text. clear text.
  split; [ | split ].
  - destruct previous as [ | | [[] | [] | | [] mp ep] ]; try discriminate;
      intros _; reflexivity.
  - intros s m e ->. rewrite change_from_finite. split.
    + intros [-> | ->]; reflexivity.
    + intros [-> | [z ->]]; cbn [ToNumber]; rewrite percent_from_zero;
        reflexivity.
  - intros p m e -> -> Hp Hb. rewrite change_from_finite.
    cbn [ToNumber]. split; [ | split ].
    + intros Hlt. apply formatPercentage_negative.
      apply Binary64.percent_below; assumption.
    + intros Hgt. apply formatPercentage_positive.
      apply Binary64.percent_above; assumption.
    + intros ->. rewrite Binary64.percent_at. reflexivity.
Qed.

Lemma percentage_change_text_witness :
  String.get 0
    (Format.formatPercentage (fun _ => EmptyString)
       (calculatePercentageChange (VNum rm_9_75) (VNum rm_9_80)))
  = Some "-"%char.
Proof.
  exact (proj1 (proj2 (proj2 (percentage_change_text (fun _ => EmptyString)
                                (VNum rm_9_75) (VNum rm_9_80)))
                  rm_9_75 5516909543528858%positive (-49)
                  eq_refl eq_refl eq_refl eq_refl)
           eq_refl).
Defined.

(** * The texts of the stock card *)

Section CardTexts.

Import Format.

Variable NumberToString : number -> string.
Variable format_MYR : number -> string.

Lemma toFixed_negative (f : nat) (x : number) :
  SFltb x (lit 0) = true ->
  exists rest, toFixed NumberToString f x = String "-" rest.
Proof.
  destruct x as [[] | [] | | [] m e]; try discriminate; intros _;
    eexists; reflexivity.
Qed.

Lemma toFixed_zero (z : bool) : toFixed NumberToString 2 (S754_zero z) = "0.00".
Proof. reflexivity. Qed.

Lemma ge_self (m : positive) (e : Z) (s : bool) :
  ge (VNum (S754_finite s m e)) (VNum (S754_finite s m e)) = true.
Proof. apply Order.ge_num. unfold Keys.num_le. destruct s; cbn; now right. Qed.

Lemma le_self (m : positive) (e : Z) (s : bool) :
  le (VNum (S754_finite s m e)) (VNum (S754_finite s m e)) = true.
Proof. apply Order.le_num. unfold Keys.num_le. destruct s; cbn; now right. Qed.

Lemma ge_undefined (v : value) : ge VUndefined v = false.
Proof. reflexivity. Qed.

Lemma le_undefined (v : value) : le VUndefined v = false.
Proof.
  unfold le, IsLessThan, lessThan. cbn [ToNumber].
  destruct (ToNumber v) as [[] | [] | | [] m e]; reflexivity.
Qed.

End CardTexts.

(** X11.  Against positive thresholds the lines under them read as
    follows: a price strictly below the lower threshold prints a distance
    whose first character is '-'; a price equal to the lower threshold
    prints '0.00%'; a price equal to the upper threshold prints '+0.00%'. *)
Theorem distance_texts_at_and_below (NumberToString format_MYR : number -> string)
    (sym : string) (p : number) (u : value) (m : positive) (e : Z) :
  valid_binary prec emax p = true ->
  bounded prec emax m e = true ->
  let t := S754_finite false m e in
  let low := {| symbol := sym; current_price := VNum p;
                threshold_up := u; threshold_down := VNum t |} in
  let high := {| symbol := sym; current_price := VNum p;
                 threshold_up := VNum t; threshold_down := u |} in
  (SFltb p t = true ->
   exists text,
     Format.lowerDistance (Format.StockCard_text NumberToString format_MYR low)
     = Some text
     /\ String.get 0 text = Some "-"%char) /\
  (p = t ->
   Format.lowerDistance (Format.StockCard_text NumberToString format_MYR low)
   = Some "0.00%") /\
  (p = t ->
   Format.upperDistance (Format.StockCard_text NumberToString format_MYR high)
   = Some "+0.00%").
Proof.
  intros Hp Hb. cbv zeta.
  split; [ | split ].
  - intros Hlt.
    destruct (toFixed_negative NumberToString 2
                (mul (div (sub p (S754_finite false m e)) (S754_finite false m e))
                     (lit 100))
                (Binary64.percent_below p m e Hp Hb Hlt)) as [rest Hrest].
    exists (String "-" rest +:+ "%"). split; [ | reflexivity ].
    cbn [Format.StockCard_text Format.lowerDistance current_price threshold_down].
    rewrite (SFltb_le _ _ Hlt).
    unfold distanceFromDown, percentOf, times, divide, minus.
    cbn [ToNumber current_price threshold_down]. now rewrite Hrest.
  - intros ->.
    cbn [Format.StockCard_text Format.lowerDistance current_price threshold_down].
    rewrite le_self.
    unfold distanceFromDown, percentOf, times, divide, minus.
    cbn [ToNumber current_price threshold_down].
    rewrite Binary64.percent_at. reflexivity.
  - intros ->.
    cbn [Format.StockCard_text Format.upperDistance current_price threshold_up].
    rewrite ge_self.
    unfold distanceFromUp, percentOf, times, divide, minus.
    cbn [ToNumber current_price threshold_up].
    rewrite Binary64.percent_at. reflexivity.
Qed.

Lemma distance_texts_at_and_below_witness :
  exists text,
    Format.lowerDistance
      (Format.StockCard_text (fun _ => EmptyString) (fun _ => EmptyString)
         (stock_5285 (VNum rm_9_75)))
    = Some text
    /\ String.get 0 text = Some "-"%char.
Proof.
  exact (proj1 (distance_texts_at_and_below (fun _ => EmptyString)
                  (fun _ => EmptyString) "5285.KL" rm_9_75 (VNum rm_10_50)
                  5516909543528858%positive (-49) eq_refl eq_refl)
           eq_refl).
Defined.

(** X12.  An upper threshold of null or zero is compared as zero and then
    divided by: every positive price is above it and the line under the
    threshold reads '+Infinity%'; a price of zero is at it and the line
    reads '+NaN%'.  A null threshold itself is printed as 'RM 0.00'. *)
Theorem zero_threshold_prints_infinity (NumberToString format_MYR : number -> string)
    (sym : string) (p : number) (u d : value) :
  u = VNull \/ u = VNum (S754_zero false) ->
  let s := {| symbol := sym; current_price := VNum p;
              threshold_up := u; threshold_down := d |} in
  let card := Format.StockCard_text NumberToString format_MYR s in
  (SFltb (lit 0) p = true ->
   isAboveThreshold s = true /\ Format.upperDistance card = Some "+Infinity%") /\
  (forall z, p = S754_zero z ->
   isAboveThreshold s = true /\ Format.upperDistance card = Some "+NaN%") /\
  (u = VNull -> Format.upperThreshold card = "RM 0.00").
Proof.
  intros Hu s card. split; [ | split ].
  - intros Hpos.
    destruct Hu as [-> | ->];
      destruct p as [[] | [] | | [] m e]; try discriminate; split; reflexivity.
  - intros z ->. destruct Hu as [-> | ->]; destruct z; split; reflexivity.
  - intros ->. reflexivity.
Qed.

Lemma zero_threshold_prints_infinity_witness :
  Format.upperDistance
    (Format.StockCard_text (fun _ => EmptyString) (fun _ => EmptyString)
       {| symbol := "5285.KL"; current_price := VNum rm_10_00;
          threshold_up := VNull; threshold_down := VNum rm_9_80 |})
  = Some "+Infinity%".
Proof.
  exact (proj2 (proj1 (zero_threshold_prints_infinity (fun _ => EmptyString)
                         (fun _ => EmptyString) "5285.KL" rm_10_00 VNull
                         (VNum rm_9_80) (or_introl eq_refl))
                  eq_refl)).
Defined.

(** X13.  A stock without a price.  With an undefined price the card
    prints 'RM 0.00' and shows no icon, no distance, no ring and no banner,
    and the Dashboard does not count it, whatever its thresholds.  With a
    null price the card also prints 'RM 0.00' and is otherwise the card of
    a price of zero: against a positive lower threshold it is in the alert
    zone, is counted, and the distance reads '-100.00%'. *)
Theorem missing_price_card (NumberToString format_MYR : number -> string)
    (sym : string) (u d : value) :
  let gone := {| symbol := sym; current_price := VUndefined;
                 threshold_up := u; threshold_down := d |} in
  let null := {| symbol := sym; current_price := VNull;
                 threshold_up := u; threshold_down := d |} in
  let zero := {| symbol := sym; current_price := VNum (lit 0);
                 threshold_up := u; threshold_down := d |} in
  Format.StockCard_text NumberToString format_MYR gone
  = {| Format.currentPrice := "RM 0.00";
       Format.upperThreshold := Format.formatCurrency format_MYR u;
       Format.upperDistance := None;
       Format.lowerThreshold := Format.formatCurrency format_MYR d;
       Format.lowerDistance := None |} /\
  StockCard gone
  = {| ring := false; titleIcons := []; upperPercent := None;
       lowerPercent := None; alertBanner := false |} /\
  activeAlerts [gone] = 0%nat /\
  Format.currentPrice (Format.StockCard_text NumberToString format_MYR null)
  = "RM 0.00" /\
  StockCard null = StockCard zero /\
  activeAlerts [null] = activeAlerts [zero] /\
  (forall m e,
     d = VNum (S754_finite false m e) ->
     isBelowThreshold null = true /\
     activeAlerts [null] = 1%nat /\
     Format.lowerDistance (Format.StockCard_text NumberToString format_MYR null)
     = Some "-100.00%").
Proof.
  intros gone null zero.
  assert (Hgone : isInAlertZone gone = false).
  { unfold isInAlertZone, isAboveThreshold, isBelowThreshold.
    cbn [gone current_price threshold_up threshold_down].
    now rewrite ge_undefined, le_undefined. }
  split; [ | split; [ | split; [ | split; [ | split; [ | split ] ] ] ] ].
  - unfold Format.StockCard_text.
    cbn [gone current_price threshold_up threshold_down].
    now rewrite ge_undefined, le_undefined.
  - unfold StockCard, StockCard_with, isInAlertZone, isAboveThreshold,
      isBelowThreshold.
    cbn [gone current_price threshold_up threshold_down].
    now rewrite ge_undefined, le_undefined.
  - rewrite activeAlerts_cons, Hgone. reflexivity.
  - reflexivity.
  - reflexivity.
  - rewrite !activeAlerts_cons. reflexivity.
  - intros m e Hd.
    assert (Hbelow : isBelowThreshold null = true)
      by (unfold null; rewrite Hd; reflexivity).
    split; [ exact Hbelow | ]. split.
    + rewrite activeAlerts_cons. unfold isInAlertZone. rewrite Hbelow, orb_true_r.
      reflexivity.
    + unfold isBelowThreshold in Hbelow.
      cbn [Format.StockCard_text Format.lowerDistance]. rewrite Hbelow.
      unfold distanceFromDown, percentOf, times, divide, minus.
      cbn [null current_price threshold_down]. rewrite Hd. cbn [ToNumber].
      rewrite percent_from_zero. reflexivity.
Qed.

Lemma missing_price_card_witness :
  Format.lowerDistance
    (Format.StockCard_text (fun _ => EmptyString) (fun _ => EmptyString)
       (stock_5285 VNull))
  = Some "-100.00%".
Proof.
  exact (proj2 (proj2 (proj2 (proj2 (proj2 (proj2 (proj2 (proj2
           (missing_price_card (fun _ => EmptyString) (fun _ => EmptyString)
              "5285.KL" (VNum rm_10_50) (VNum rm_9_80)))))))
           5516909543528858%positive (-49) eq_refl))).
Defined.
